(** * Inlay-hint synchronisation engine ([src/inlay_hints.ts])

    A shallow embedding of the class [HintsUpdater]: the registry of source
    files, the request life cycle (issue, cancel, supersede), the completion
    handlers of the asynchronous fetches, the renderer and the toggle.

    The program runs on one JavaScript thread.  Its suspension points are
    the two [await workspace.document] and the promise returned by the
    backend call, so an execution is a sequence of atomic steps: an editor
    event running a listener, a call of a public method, the resumption of a
    task suspended on [workspace.document], or the settlement of a backend
    request, which runs its completion handlers. *)

From Stdlib Require Import List String Ascii Arith Bool Lia.
Import ListNotations.
Local Open Scope string_scope.
Local Open Scope list_scope.

(** ** A JavaScript [Map] with string keys

    Entries are kept in insertion order, which is the order of [forEach].
    [set] on a present key replaces the value where it stands, [set] on an
    absent key appends an entry. *)

Module JsMap.

Section Ops.
Context {V : Type}.

Definition t := list (string * V).

Definition keys (m : t) : list string := map fst m.

Fixpoint get (k : string) (m : t) : option V :=
  match m with
  | [] => None
  | (k', v) :: m' => if String.eqb k k' then Some v else get k m'
  end.

Fixpoint set (k : string) (v : V) (m : t) : t :=
  match m with
  | [] => [(k, v)]
  | (k', v') :: m' =>
      if String.eqb k k' then (k', v) :: m' else (k', v') :: set k v m'
  end.

End Ops.
Arguments t : clear implicits.

End JsMap.

(** ** Data of the editor and of the backend *)

(** A text document as the listeners see it.  [isRustDocument] of [./ctx]
    is not part of the source at hand; it is a parameter of the development
    (see [Section Engine]). *)
Record TextDocument := mkTextDocument {
  td_uri : string;
  languageId : string
}.

(** A [Document] of the editor: a text document shown in a buffer.
    [doc.uri] is the uri of its text document. *)
Record Document := mkDocument {
  bufnr : nat;
  textDocument : TextDocument
}.

Definition uri (d : Document) : string := td_uri (textDocument d).

Record Position := mkPosition { line : nat; character : nat }.
Record Range := mkRange { range_start : Position; range_end : Position }.

(** Modelled from the spec: the declaration of [ra.InlayHint] lives in
    [./lsp_ext], which is not part of the source at hand.  The spec gives a
    hint a kind among type, parameter and chaining, a label and a source
    range whose end anchors the overlay. *)
Inductive Kind := TypeHint | ParameterHint | ChainingHint.

Record InlayHint := mkInlayHint {
  kind : Kind;
  label : string;
  range : Range
}.

(** [ctx.config.inlayHints], read afresh at every use. *)
Record InlayHintsConfig := mkConfig {
  chainingHints : bool;
  typeHints : bool;
  chainingHintsSeparator : string;
  typeHintsSeparator : string;
  refreshOnInsertMode : bool
}.

(** What the engine reads from the editor. *)
Record Workspace := mkWorkspace {
  documents : list Document;          (* workspace.documents *)
  active : option Document;           (* what workspace.document resolves to *)
  insertMode : bool;                  (* workspace.insertMode *)
  config : InlayHintsConfig
}.

Definition getDocument (ws : Workspace) (b : nat) : option Document :=
  find (fun d => Nat.eqb (bufnr d) b) (documents ws).

Definition getDocumentByUri (ws : Workspace) (u : string) : option Document :=
  find (fun d => String.eqb (uri d) u) (documents ws).

(** ** The rendering sink

    The sink holds the virtual texts set in the namespace [rust-inlay-hint]
    and not cleared since, each with the buffer it was set on, in the order
    of the calls. *)

Definition Chunk := (string * string)%type.     (* text, highlight group *)

Record VirtualText := mkVirtualText {
  vt_line : nat;
  vt_chunks : list Chunk
}.

Definition Sink := list (nat * VirtualText).

Definition clearNamespace (b : nat) (s : Sink) : Sink :=
  filter (fun e => negb (Nat.eqb (fst e) b)) s.

Definition setVirtualText (b : nat) (l : nat) (chunks : list Chunk) (s : Sink) : Sink :=
  s ++ [(b, mkVirtualText l chunks)].

Definition overlays (s : Sink) (b : nat) : list VirtualText :=
  map snd (filter (fun e => Nat.eqb (fst e) b) s).

(** ** [renderHints] *)

Record InlaysDecorations := mkDecorations {
  dec_type : list InlayHint;
  dec_param : list InlayHint;
  dec_chaining : list InlayHint
}.

(** The [for ... switch] loop that fills the buckets. *)
Fixpoint categorize (hints : list InlayHint) (d : InlaysDecorations) : InlaysDecorations :=
  match hints with
  | [] => d
  | hint :: rest =>
      categorize rest
        match kind hint with
        | TypeHint =>
            mkDecorations (dec_type d ++ [hint]) (dec_param d) (dec_chaining d)
        | ChainingHint =>
            mkDecorations (dec_type d) (dec_param d) (dec_chaining d ++ [hint])
        | ParameterHint => d
        end
  end.

(** One of the two drawing loops. *)
Definition drawAll (b : nat) (sep group : string) (items : list InlayHint) (s : Sink) : Sink :=
  fold_left
    (fun s item =>
       setVirtualText b (line (range_end (range item))) [((sep ++ label item)%string, group)] s)
    items s.

Definition renderHints (cfg : InlayHintsConfig) (doc : Document)
    (hints : list InlayHint) (s : Sink) : Sink :=
  let decorations := categorize hints (mkDecorations [] [] []) in
  let s := clearNamespace (bufnr doc) s in
  let s :=
    if chainingHints cfg
    then drawAll (bufnr doc) (chainingHintsSeparator cfg) "CocRustChainingHint"
           (dec_chaining decorations) s
    else s in
  if typeHints cfg
  then drawAll (bufnr doc) (typeHintsSeparator cfg) "CocRustTypeHint"
         (dec_type decorations) s
  else s.

(** ** Promises, as far as the engine uses them

    A settled promise is fulfilled with a value or rejected with a reason.
    [sendRequestWithRetry] of [./ctx] is not part of the source at hand: how
    a backend call settles is left to the environment. *)

Inductive Reason := RequestCancelled | RequestFailed (message : string).

Inductive Settled (A : Type) :=
  | Fulfilled (value : A)
  | Rejected (reason : Reason).
Arguments Fulfilled {A} value.
Arguments Rejected {A} reason.

(** [p.catch(() => null)] *)
Definition catch_null {A : Type} (p : Settled A) : Settled (option A) :=
  match p with
  | Fulfilled v => Fulfilled (Some v)
  | Rejected _ => Fulfilled None
  end.

(** [p.finally(cb)] for a callback that does not throw: the callback runs on
    the state and the promise settles as [p] did. *)
Definition finally_ {S A : Type} (cb : S -> S) (p : Settled A) (st : S) : S * Settled A :=
  (cb st, p).

(** ** The engine *)

Record RustSourceFile := mkRustSourceFile {
  inlaysRequest : option nat;
  document : TextDocument
}.

(** A backend call in flight together with the closures waiting for it: the
    token source created for it, the file it was issued for (the key [uri]
    of the [forEach] callback), the parameter it was sent with and the
    [current] document read by the pass that issued it. *)
Record Request := mkRequest {
  rq_token : nat;
  rq_uri : string;
  rq_param : string;
  rq_current : option Document
}.

(** A task suspended at [await workspace.document]. *)
Inductive Suspended :=
  | InSyncAndRenderHints
  | InToggle.

(** The fields of [HintsUpdater] and what surrounds them.  A
    [CancellationTokenSource] is identified by the number of its allocation;
    [cancelled] lists the sources on which [cancel()] was called.
    [listening] tells whether the listeners pushed to [disposables] are
    still registered; the [InsertLeave] listener is not among them. *)
Record State := mkState {
  sourceFiles : JsMap.t RustSourceFile;
  listening : bool;
  inlayHintsEnabled : bool;
  nextToken : nat;
  cancelled : list nat;
  inflight : list Request;
  suspended : list Suspended;
  sink : Sink;
  ws : Workspace
}.

Definition with_sourceFiles (sf : JsMap.t RustSourceFile) (st : State) : State :=
  mkState sf (listening st) (inlayHintsEnabled st) (nextToken st) (cancelled st)
    (inflight st) (suspended st) (sink st) (ws st).

Definition with_sink (s : Sink) (st : State) : State :=
  mkState (sourceFiles st) (listening st) (inlayHintsEnabled st) (nextToken st)
    (cancelled st) (inflight st) (suspended st) s (ws st).

Definition with_suspended (l : list Suspended) (st : State) : State :=
  mkState (sourceFiles st) (listening st) (inlayHintsEnabled st) (nextToken st)
    (cancelled st) (inflight st) l (sink st) (ws st).

Definition with_inflight (l : list Request) (st : State) : State :=
  mkState (sourceFiles st) (listening st) (inlayHintsEnabled st) (nextToken st)
    (cancelled st) l (suspended st) (sink st) (ws st).

Definition with_ws (w : Workspace) (st : State) : State :=
  mkState (sourceFiles st) (listening st) (inlayHintsEnabled st) (nextToken st)
    (cancelled st) (inflight st) (suspended st) (sink st) w.

(** The token source recorded for the file under key [k], if any. *)
Definition recordedIn (k : string) (sf : JsMap.t RustSourceFile) : option nat :=
  match JsMap.get k sf with
  | Some file => inlaysRequest file
  | None => None
  end.

Definition recorded (k : string) (st : State) : option nat :=
  recordedIn k (sourceFiles st).

(** [file.inlaysRequest = r] on the file object stored under [k].  The
    object stays where it is in the map. *)
Definition assignInlaysRequest (k : string) (r : option nat)
    (sf : JsMap.t RustSourceFile) : JsMap.t RustSourceFile :=
  match JsMap.get k sf with
  | Some file => JsMap.set k (mkRustSourceFile r (document file)) sf
  | None => sf
  end.

(** [file.inlaysRequest?.cancel()] *)
Definition cancelInlaysRequest (file : RustSourceFile) (c : list nat) : list nat :=
  match inlaysRequest file with
  | Some t => t :: c
  | None => c
  end.

(** The first three statements of [fetchHints]: cancel what is recorded,
    allocate a token source, record it.  Returns the new token source. *)
Definition supersede (k : string) (file : RustSourceFile) (st : State) : State * nat :=
  let tokenSource := nextToken st in
  (mkState (assignInlaysRequest k (Some tokenSource) (sourceFiles st))
     (listening st) (inlayHintsEnabled st) (S tokenSource)
     (cancelInlaysRequest file (cancelled st))
     (inflight st) (suspended st) (sink st) (ws st),
   tokenSource).

(** [fetchHints(file)] up to the point where the promise of the backend
    call is returned, with the [then] callback of [syncAndRenderHints]
    attached: the call joins the requests in flight. *)
Definition fetchHints (current : option Document) (k : string) (st : State) : State :=
  match JsMap.get k (sourceFiles st) with
  | None => st
  | Some file =>
      let '(st1, tokenSource) := supersede k file st in
      with_inflight
        (inflight st1 ++ [mkRequest tokenSource k (td_uri (document file)) current])
        st1
  end.

(** The callback of [finally] in [fetchHints]. *)
Definition clearIfCurrent (rq : Request) (st : State) : State :=
  match recorded (rq_uri rq) st with
  | Some t =>
      if Nat.eqb t (rq_token rq)
      then with_sourceFiles (assignInlaysRequest (rq_uri rq) None (sourceFiles st)) st
      else st
  | None => st
  end.

(** How the promise returned by [fetchHints] settles, and the state after
    its [finally] callback, when the backend call settles as [outcome]. *)
Definition fetchHints_settled (rq : Request) (outcome : Settled (list InlayHint))
    (st : State) : State * Settled (option (list InlayHint)) :=
  finally_ (clearIfCurrent rq) (catch_null outcome) st.

(** [dispose()] *)
Definition dispose (st : State) : State :=
  mkState (sourceFiles st) false (inlayHintsEnabled st) (nextToken st)
    (fold_left (fun c e => cancelInlaysRequest (snd e) c) (sourceFiles st) (cancelled st))
    (inflight st) (suspended st) (sink st) (ws st).

(** [syncAndRenderHints()] up to its [await]. *)
Definition syncAndRenderHints (st : State) : State :=
  if inlayHintsEnabled st
  then with_suspended (suspended st ++ [InSyncAndRenderHints]) st
  else st.

(** [toggle()] up to its [await], or to its end in the [else] branch. *)
Definition toggle (st : State) : State :=
  if inlayHintsEnabled st
  then
    let st := mkState (sourceFiles st) (listening st) false (nextToken st)
                (cancelled st) (inflight st) (suspended st) (sink st) (ws st) in
    let st := dispose st in
    with_suspended (suspended st ++ [InToggle]) st
  else
    let st := mkState (sourceFiles st) (listening st) true (nextToken st)
                (cancelled st) (inflight st) (suspended st) (sink st) (ws st) in
    syncAndRenderHints st.

Section Engine.

(** [isRustDocument] of [./ctx]. *)
Variable isRustDocument : TextDocument -> bool.

(** The [then] callback of [syncAndRenderHints]. *)
Definition onHints (rq : Request) (p : Settled (option (list InlayHint)))
    (st : State) : State :=
  match p with
  | Fulfilled (Some hints) =>
      match rq_current rq with
      | Some current =>
          if String.eqb (uri current) (rq_uri rq) && isRustDocument (textDocument current)
          then with_sink (renderHints (config (ws st)) current hints (sink st)) st
          else st
      | None => st
      end
  | Fulfilled None => st
  | Rejected _ => st
  end.

(** The backend call of [rq] settles: [catch], [finally], then the [then]
    callback.  The two callbacks touch different parts of the state (the
    file record, the sink) and read nothing of each other, so they are run
    in one step. *)
Definition settle (rq : Request) (outcome : Settled (list InlayHint)) (st : State) : State :=
  let '(st1, p) := fetchHints_settled rq outcome st in
  onHints rq p st1.

(** The rest of [syncAndRenderHints] once [workspace.document] has given
    [current]: the [forEach] over the map.  A file object is named by its
    key: no entry of the map is ever replaced by another object. *)
Definition syncAndRenderHints_resume (current : option Document) (st : State) : State :=
  fold_left (fun st k => fetchHints current k st) (JsMap.keys (sourceFiles st)) st.

(** The rest of [toggle] once [workspace.document] has given [doc]. *)
Definition toggle_resume (doc : option Document) (st : State) : State :=
  match doc with
  | None => st
  | Some doc => with_sink (clearNamespace (bufnr doc) (sink st)) st
  end.

(** The listener of [InsertLeave]. *)
Definition onInsertLeave (b : nat) (st : State) : State :=
  match getDocument (ws st) b with
  | Some doc =>
      if isRustDocument (textDocument doc)
      then syncAndRenderHints (with_sink (clearNamespace (bufnr doc) (sink st)) st)
      else st
  | None => st
  end.

(** The listener of [onDidChangeTextDocument]. *)
Definition onDidChangeTextDocument (b : nat) (st : State) : State :=
  match getDocument (ws st) b with
  | Some doc =>
      if isRustDocument (textDocument doc)
      then
        let st := with_sink (clearNamespace (bufnr doc) (sink st)) st in
        if insertMode (ws st) && negb (refreshOnInsertMode (config (ws st)))
        then st
        else syncAndRenderHints st
      else st
  | None => st
  end.

(** The first two statements of the listener of [onDidOpenTextDocument]. *)
Definition register (e : TextDocument) (sf : JsMap.t RustSourceFile) : JsMap.t RustSourceFile :=
  let file :=
    match JsMap.get (td_uri e) sf with
    | Some file => file
    | None => mkRustSourceFile None e
    end in
  JsMap.set (td_uri e) file sf.

(** The listener of [onDidOpenTextDocument].  [workspace.getDocument] may
    know no document for the uri; [doc.buffer] then throws and the listener
    ends there. *)
Definition onDidOpenTextDocument (e : TextDocument) (st : State) : State :=
  if isRustDocument e
  then
    let st := with_sourceFiles (register e (sourceFiles st)) st in
    match getDocumentByUri (ws st) (td_uri e) with
    | Some doc => syncAndRenderHints (with_sink (clearNamespace (bufnr doc) (sink st)) st)
    | None => st
    end
  else st.

(** The constructor: the loop over [workspace.documents], the registration
    of the listeners and the first [syncAndRenderHints].  [s0] is what the
    namespace holds when the engine is built. *)
Definition construct_file (acc : JsMap.t RustSourceFile * Sink) (doc : Document)
    : JsMap.t RustSourceFile * Sink :=
  if isRustDocument (textDocument doc)
  then (JsMap.set (uri doc) (mkRustSourceFile None (textDocument doc)) (fst acc),
        clearNamespace (bufnr doc) (snd acc))
  else acc.

Definition construct (w : Workspace) (s0 : Sink) : State :=
  let acc := fold_left construct_file (documents w) ([], s0) in
  syncAndRenderHints (mkState (fst acc) true true 0 [] [] [] (snd acc) w).

(** ** Steps *)

Inductive Event :=
  | InsertLeave (b : nat)
  | DidChangeTextDocument (b : nat)
  | DidOpenTextDocument (e : TextDocument)
  | CallToggle
  | CallSyncAndRenderHints
  | CallDispose
  | Resume (i : nat)
  | Settle (tokenSource : nat) (outcome : Settled (list InlayHint))
  | Editor (w : Workspace).

Fixpoint remove_nth {A : Type} (i : nat) (l : list A) : list A :=
  match l, i with
  | [], _ => []
  | _ :: l', O => l'
  | x :: l', S i' => x :: remove_nth i' l'
  end.

Definition find_request (t : nat) (l : list Request) : option Request :=
  find (fun rq => Nat.eqb (rq_token rq) t) l.

Definition drop_request (t : nat) (l : list Request) : list Request :=
  filter (fun rq => negb (Nat.eqb (rq_token rq) t)) l.

(** One atomic step.  An event nobody listens to, the resumption of a task
    that is not suspended and the settlement of a call that is not in
    flight leave the state as it is.  A task resumes with the document that
    is active at that moment. *)
Definition step (ev : Event) (st : State) : State :=
  match ev with
  | InsertLeave b => onInsertLeave b st
  | DidChangeTextDocument b =>
      if listening st then onDidChangeTextDocument b st else st
  | DidOpenTextDocument e =>
      if listening st then onDidOpenTextDocument e st else st
  | CallToggle => toggle st
  | CallSyncAndRenderHints => syncAndRenderHints st
  | CallDispose => dispose st
  | Resume i =>
      match nth_error (suspended st) i with
      | Some task =>
          let st := with_suspended (remove_nth i (suspended st)) st in
          match task with
          | InSyncAndRenderHints => syncAndRenderHints_resume (active (ws st)) st
          | InToggle => toggle_resume (active (ws st)) st
          end
      | None => st
      end
  | Settle t outcome =>
      match find_request t (inflight st) with
      | Some rq => settle rq outcome (with_inflight (drop_request t (inflight st)) st)
      | None => st
      end
  | Editor w => with_ws w st
  end.

Definition run (evs : list Event) (st : State) : State :=
  fold_left (fun st ev => step ev st) evs st.

Inductive reachable : State -> Prop :=
  | reachable_construct (w : Workspace) (s0 : Sink) : reachable (construct w s0)
  | reachable_step (ev : Event) (st : State) : reachable st -> reachable (step ev st).

End Engine.

(** The guard of the [finally] callback, as a test on a request in flight:
    may its completion reset the [inlaysRequest] of its file? *)
Definition mayClear (st : State) (rq : Request) : bool :=
  match recorded (rq_uri rq) st with
  | Some t => Nat.eqb t (rq_token rq)
  | None => false
  end.

(** The virtual text [renderHints] sets for one hint. *)
Definition virtualTextOf (sep group : string) (item : InlayHint) : VirtualText :=
  mkVirtualText (line (range_end (range item))) [((sep ++ label item)%string, group)].

Definition isType (h : InlayHint) : bool :=
  match kind h with TypeHint => true | _ => false end.

Definition isChaining (h : InlayHint) : bool :=
  match kind h with ChainingHint => true | _ => false end.

(** The invariant of the request life cycle. *)
Record Inv (st : State) : Prop := mkInv {
  inv_keys : NoDup (JsMap.keys (sourceFiles st));
  inv_tokens : NoDup (map rq_token (inflight st));
  inv_fresh_inflight : forall rq, In rq (inflight st) -> rq_token rq < nextToken st;
  inv_fresh_recorded : forall k t, recorded k st = Some t -> t < nextToken st;
  inv_superseded : forall rq, In rq (inflight st) ->
    recorded (rq_uri rq) st = Some (rq_token rq) \/ In (rq_token rq) (cancelled st);
  inv_fresh_cancelled : forall t, In t (cancelled st) -> t < nextToken st
}.

(** What the spec expects [renderHints] to draw on the document: for each
    enabled kind, one virtual text per hint of that kind. *)
Definition expectedOverlays (cfg : InlayHintsConfig) (hints : list InlayHint)
    : list VirtualText :=
  (if chainingHints cfg
   then map (virtualTextOf (chainingHintsSeparator cfg) "CocRustChainingHint")
          (filter isChaining hints)
   else []) ++
  (if typeHints cfg
   then map (virtualTextOf (typeHintsSeparator cfg) "CocRustTypeHint")
          (filter isType hints)
   else []).

(** ** Properties as the specification words them

    Each is compared below with what the engine does. *)

(** Race property: the completion of a request whose token is no longer the
    one recorded for its file paints nothing and leaves every file record
    as it is. *)
Definition StaleCompletionIsDiscarded (isRustDocument : TextDocument -> bool)
    (st : State) (rq : Request) (outcome : Settled (list InlayHint)) : Prop :=
  In rq (inflight st) -> mayClear st rq = false ->
  sink (step isRustDocument (Settle (rq_token rq) outcome) st) = sink st /\
  sourceFiles (step isRustDocument (Settle (rq_token rq) outcome) st) = sourceFiles st.

(** Render guarantee: a settlement paints only if the file of the request
    is the document displayed when the request settles. *)
Definition PaintsOnlyDisplayed (isRustDocument : TextDocument -> bool)
    (st : State) (t : nat) (outcome : Settled (list InlayHint)) : Prop :=
  forall rq, find_request t (inflight st) = Some rq ->
  sink (step isRustDocument (Settle t outcome) st) <> sink st ->
  exists doc, active (ws st) = Some doc /\ uri doc = rq_uri rq.

(** Toggle property: once disabled, every recorded request is cancelled, no
    fetch is left and no buffer carries an overlay. *)
Definition CleanAfterDisable (st : State) : Prop :=
  (forall k t, recorded k st = Some t -> In t (cancelled st)) /\
  inflight st = [] /\
  (forall b, overlays (sink st) b = []).

(** Scenario 3: when the fetch of a document fails, the overlays of that
    document are cleared. *)
Definition FailureClearsOverlays (isRustDocument : TextDocument -> bool)
    (st : State) (t : nat) (reason : Reason) : Prop :=
  forall rq doc, find_request t (inflight st) = Some rq ->
  getDocumentByUri (ws st) (rq_uri rq) = Some doc ->
  overlays (sink (step isRustDocument (Settle t (Rejected reason)) st)) (bufnr doc) = [].

(** ** A small workspace for the examples

    Two Rust documents in buffers 1 and 2; [isRustDocument] is taken to test
    the language id. *)

Module Sample.

Definition isRust (d : TextDocument) : bool := String.eqb (languageId d) "rust".

Definition docA := mkDocument 1 (mkTextDocument "file:///a.rs" "rust").
Definition docB := mkDocument 2 (mkTextDocument "file:///b.rs" "rust").

Definition cfg := mkConfig true true " » " ": " false.
Definition cfgNoType := mkConfig true false " » " ": " false.

Definition wsA := mkWorkspace [docA; docB] (Some docA) false cfg.
Definition wsB := mkWorkspace [docA; docB] (Some docB) false cfg.
Definition wsInsert := mkWorkspace [docA; docB] (Some docA) true cfg.

Definition hints : list InlayHint :=
  [ mkInlayHint TypeHint ": i32" (mkRange (mkPosition 3 4) (mkPosition 3 9));
    mkInlayHint ChainingHint "-> i32" (mkRange (mkPosition 5 0) (mkPosition 5 12)) ].

Definition staleHints : list InlayHint :=
  [ mkInlayHint TypeHint ": u8" (mkRange (mkPosition 7 4) (mkPosition 7 8)) ].

(** The engine right after its constructor, on an empty namespace. *)
Definition st0 : State := construct isRust wsA [].

(** The first pass has issued its fetches: token 0 for [a.rs], token 1 for
    [b.rs], both with [docA] as [current]. *)
Definition stFetching : State := run isRust [Resume 0] st0.

(** After that the fetch of [a.rs] has drawn its hints on buffer 1. *)
Definition stHinted : State :=
  run isRust [Settle 0 (Fulfilled hints)] stFetching.

(** A second pass over [stFetching] supersedes tokens 0 and 1 by 2 and 3;
    the newer fetch of [a.rs] settles first and draws. *)
Definition stSuperseded : State :=
  run isRust [CallSyncAndRenderHints; Resume 0; Settle 2 (Fulfilled hints)] stFetching.

(** The user moves to [docB] while the first pass is in flight. *)
Definition stMoved : State := run isRust [Editor wsB] stFetching.

(** [docA] has hints, the user moves to [docB] and toggles the hints off;
    the suspended [toggle] resumes. *)
Definition stToggledOff : State :=
  run isRust [Editor wsB; CallToggle; Resume 0] stHinted.

(** The hints are toggled off while the first pass is in flight, [toggle]
    resumes, and the backend then fulfils the cancelled token 0. *)
Definition stToggledOffLate : State :=
  run isRust [CallToggle; Resume 0; Settle 0 (Fulfilled hints)] stFetching.

(** Hints toggled off and on again, every suspended task resumed. *)
Definition stToggledOffOn : State :=
  run isRust [CallToggle; Resume 0; CallToggle; Resume 0] stFetching.

(** [docA] has hints; a pass started without a listener (as
    [onConfigChange] does) has issued tokens 2 and 3. *)
Definition stRefetching : State :=
  run isRust [CallSyncAndRenderHints; Resume 0] stHinted.

End Sample.

(** ** A pass, described file by file

    What the [forEach] of a pass leaves behind when it starts with token
    source [n]: the file records, and the requests it issues, in the order
    of the map. *)

Fixpoint passFiles (n : nat) (sf : JsMap.t RustSourceFile) : JsMap.t RustSourceFile :=
  match sf with
  | [] => []
  | (k, file) :: sf' => (k, mkRustSourceFile (Some n) (document file)) :: passFiles (S n) sf'
  end.

Fixpoint passRequests (current : option Document) (n : nat)
    (sf : JsMap.t RustSourceFile) : list Request :=
  match sf with
  | [] => []
  | (k, file) :: sf' =>
      mkRequest n k (td_uri (document file)) current :: passRequests current (S n) sf'
  end.

(** The state a pass over the whole map leaves. *)
Definition afterPass (current : option Document) (st : State) : State :=
  mkState (passFiles (nextToken st) (sourceFiles st))
    (listening st) (inlayHintsEnabled st)
    (nextToken st + List.length (sourceFiles st))
    (fold_left (fun c e => cancelInlaysRequest (snd e) c) (sourceFiles st) (cancelled st))
    (inflight st ++ passRequests current (nextToken st) (sourceFiles st))
    (suspended st) (sink st) (ws st).

(** Is [doc] a Rust document shown in buffer [b]? *)
Definition rustBuffer (isRustDocument : TextDocument -> bool) (b : nat)
    (doc : Document) : bool :=
  isRustDocument (textDocument doc) && Nat.eqb (bufnr doc) b.

(** [sf'] has the entries of [sf] where they were, with their documents,
    and maybe more entries behind them. *)
Definition extends (sf sf' : JsMap.t RustSourceFile) : Prop :=
  (exists added, JsMap.keys sf' = JsMap.keys sf ++ added) /\
  (forall k file, JsMap.get k sf = Some file ->
     exists file', JsMap.get k sf' = Some file' /\ document file' = document file).

(** An engine that is switched off and has no pass waiting for
    [workspace.document]. *)
Definition quiet (st : State) : Prop :=
  inlayHintsEnabled st = false /\ ~ In InSyncAndRenderHints (suspended st).

(** A recorded token source names a call in flight for that file. *)
Definition RecordedInFlight (st : State) : Prop :=
  forall k t, recorded k st = Some t ->
  exists rq, In rq (inflight st) /\ rq_token rq = t /\ rq_uri rq = k.

(** Every file is a Rust document stored under its own uri, and every call
    in flight was sent with the key of its file. *)
Definition TrackedAreRust (isRustDocument : TextDocument -> bool) (st : State) : Prop :=
  (forall k file, JsMap.get k (sourceFiles st) = Some file ->
     td_uri (document file) = k /\ isRustDocument (document file) = true) /\
  (forall rq, In rq (inflight st) ->
     rq_param rq = rq_uri rq /\ In (rq_uri rq) (JsMap.keys (sourceFiles st))).

(** ** Facts about [JsMap] *)

Module JsMapFacts.
Import JsMap.

Section Facts.
Context {V : Type}.
Implicit Types (m : JsMap.t V) (k : string) (v : V).

Lemma get_in_keys m k v : get k m = Some v -> In k (keys m).
Proof.
  induction m as [|[k' v'] m IH]; simpl; [discriminate|].
  destruct (String.eqb_spec k k') as [->|Hne]; auto.
Qed.

Lemma get_none_iff m k : get k m = None <-> ~ In k (keys m).
Proof.
  induction m as [|[k' v'] m IH]; simpl.
  - split; auto.
  - destruct (String.eqb_spec k k') as [->|Hne].
    + split; [discriminate | intros H; exfalso; apply H; now left].
    + rewrite IH. split; intros H; [intros [E|E]; [congruence | auto] | auto].
Qed.

Lemma in_keys_get m k : In k (keys m) -> exists v, get k m = Some v.
Proof.
  intros Hin. destruct (get k m) as [v|] eqn:E; [now exists v|].
  apply get_none_iff in E. contradiction.
Qed.

Lemma get_set_same m k v : get k (set k v m) = Some v.
Proof.
  induction m as [|[k' v'] m IH]; simpl.
  - now rewrite String.eqb_refl.
  - destruct (String.eqb_spec k k') as [->|Hne]; simpl.
    + now rewrite String.eqb_refl.
    + destruct (String.eqb_spec k k'); [contradiction | exact IH].
Qed.

Lemma get_set_other m k k' v : k' <> k -> get k' (set k v m) = get k' m.
Proof.
  intros Hne. induction m as [|[k0 v0] m IH]; simpl.
  - destruct (String.eqb_spec k' k); [contradiction | reflexivity].
  - destruct (String.eqb_spec k k0) as [->|Hk]; simpl.
    + destruct (String.eqb_spec k' k0); [contradiction | reflexivity].
    + now rewrite IH.
Qed.

Lemma set_get_id m k v : get k m = Some v -> set k v m = m.
Proof.
  induction m as [|[k' v'] m IH]; simpl; [discriminate|].
  destruct (String.eqb_spec k k') as [->|Hne].
  - now intros [= ->].
  - intros H. now rewrite IH.
Qed.

Lemma keys_set_present m k v : In k (keys m) -> keys (set k v m) = keys m.
Proof.
  induction m as [|[k' v'] m IH]; simpl; [contradiction|].
  destruct (String.eqb_spec k k') as [->|Hne]; simpl; [reflexivity|].
  intros [E|Hin]; [congruence|]. now rewrite IH.
Qed.

Lemma keys_set_absent m k v : ~ In k (keys m) -> keys (set k v m) = keys m ++ [k].
Proof.
  induction m as [|[k' v'] m IH]; simpl; [reflexivity|].
  destruct (String.eqb_spec k k') as [->|Hne]; simpl.
  - intros H. exfalso. apply H. now left.
  - intros H. rewrite IH; auto.
Qed.

Lemma NoDup_keys_set m k v : NoDup (keys m) -> NoDup (keys (set k v m)).
Proof.
  intros Hnd. destruct (in_dec string_dec k (keys m)) as [Hin|Hout].
  - now rewrite keys_set_present.
  - rewrite keys_set_absent by assumption.
    apply NoDup_app; [assumption | repeat constructor; intros [] |].
    intros x Hx [<-|[]]. contradiction.
Qed.

Lemma in_get m k v : NoDup (keys m) -> In (k, v) m -> get k m = Some v.
Proof.
  induction m as [|[k' v'] m IH]; simpl; [contradiction|].
  intros Hnd [[= -> ->]|Hin]; [now rewrite String.eqb_refl|].
  inversion Hnd as [|? ? Hk Hm]; subst.
  destruct (String.eqb_spec k k') as [->|Hne]; [|auto].
  exfalso. apply Hk. apply in_map_iff. now exists (k', v).
Qed.

Lemma get_in m k v : get k m = Some v -> In (k, v) m.
Proof.
  induction m as [|[k' v'] m IH]; simpl; [discriminate|].
  destruct (String.eqb_spec k k') as [->|Hne]; [intros [= ->]; now left | auto].
Qed.

End Facts.
End JsMapFacts.

(** ** Facts about the engine *)

Import JsMap JsMapFacts.

Lemma keys_assign k r sf : keys (assignInlaysRequest k r sf) = keys sf.
Proof.
  unfold assignInlaysRequest. destruct (get k sf) as [f|] eqn:E; [|reflexivity].
  apply keys_set_present. eapply get_in_keys; eassumption.
Qed.

Lemma recordedIn_assign_same k r sf :
  In k (keys sf) -> recordedIn k (assignInlaysRequest k r sf) = r.
Proof.
  intros Hin. destruct (in_keys_get _ _ Hin) as [f E].
  unfold recordedIn, assignInlaysRequest. rewrite E, get_set_same. reflexivity.
Qed.

Lemma recordedIn_assign_other k k' r sf :
  k' <> k -> recordedIn k' (assignInlaysRequest k r sf) = recordedIn k' sf.
Proof.
  intros Hne. unfold recordedIn, assignInlaysRequest.
  destruct (get k sf); [now rewrite get_set_other | reflexivity].
Qed.

Lemma recordedIn_in_keys k sf t : recordedIn k sf = Some t -> In k (keys sf).
Proof.
  unfold recordedIn. destruct (get k sf) eqn:E; [|discriminate].
  intros _. eapply get_in_keys; eassumption.
Qed.

Lemma cancelInlaysRequest_incl file c t :
  In t c -> In t (cancelInlaysRequest file c).
Proof.
  unfold cancelInlaysRequest. destruct (inlaysRequest file); simpl; auto.
Qed.

Lemma cancelInlaysRequest_own file c t :
  inlaysRequest file = Some t -> In t (cancelInlaysRequest file c).
Proof.
  unfold cancelInlaysRequest. intros ->. now left.
Qed.

Lemma cancel_all_incl (sf : JsMap.t RustSourceFile) c t :
  In t c -> In t (fold_left (fun c e => cancelInlaysRequest (snd e) c) sf c).
Proof.
  revert c. induction sf as [|e sf IH]; simpl; intros c H; [assumption|].
  apply IH. now apply cancelInlaysRequest_incl.
Qed.

Lemma cancel_all_own (sf : JsMap.t RustSourceFile) c k file t :
  In (k, file) sf -> inlaysRequest file = Some t ->
  In t (fold_left (fun c e => cancelInlaysRequest (snd e) c) sf c).
Proof.
  revert c. induction sf as [|e sf IH]; simpl; intros c Hin Hreq; [contradiction|].
  destruct Hin as [->|Hin].
  - apply cancel_all_incl. now apply cancelInlaysRequest_own.
  - now apply IH.
Qed.

Lemma cancel_all_inv (sf : JsMap.t RustSourceFile) c t :
  In t (fold_left (fun c e => cancelInlaysRequest (snd e) c) sf c) ->
  In t c \/ exists k file, In (k, file) sf /\ inlaysRequest file = Some t.
Proof.
  revert c. induction sf as [|[k file] sf IH]; simpl; intros c H; [now left|].
  apply IH in H as [H|(k' & file' & Hin & Hreq)].
  - unfold cancelInlaysRequest in H.
    destruct (inlaysRequest file) as [t'|] eqn:E; [|now left].
    destruct H as [<-|H]; [right; exists k, file; auto | now left].
  - right. exists k', file'. auto.
Qed.

Lemma dispose_cancels_recorded st k t :
  recorded k st = Some t -> In t (cancelled (dispose st)).
Proof.
  unfold recorded, recordedIn. destruct (get k (sourceFiles st)) as [f|] eqn:E; [|discriminate].
  intros Hreq. simpl. eapply cancel_all_own; [apply get_in; eassumption | assumption].
Qed.

Lemma drop_request_tokens t l :
  NoDup (map rq_token l) -> NoDup (map rq_token (drop_request t l)).
Proof.
  unfold drop_request. intros Hnd.
  induction l as [|rq l IH]; simpl in *; [constructor|].
  apply NoDup_cons_iff in Hnd as [Hrq Hl].
  destruct (Nat.eqb (rq_token rq) t); simpl; [now apply IH|].
  constructor; [|now apply IH].
  intros (rq' & E & [Hin _]%filter_In)%in_map_iff.
  apply Hrq. rewrite <- E. now apply in_map.
Qed.

Lemma Inv_frame st st' :
  sourceFiles st' = sourceFiles st -> nextToken st' = nextToken st ->
  cancelled st' = cancelled st -> inflight st' = inflight st ->
  Inv st -> Inv st'.
Proof.
  intros Hsf Hn Hc Hi [I1 I2 I3 I4 I5 I6].
  constructor; unfold recorded in *; rewrite ?Hsf, ?Hn, ?Hc, ?Hi; assumption.
Qed.

Lemma syncAndRenderHints_inv st : Inv st -> Inv (syncAndRenderHints st).
Proof.
  unfold syncAndRenderHints. destruct (inlayHintsEnabled st); [|auto].
  now apply Inv_frame.
Qed.

Lemma dispose_inv st : Inv st -> Inv (dispose st).
Proof.
  intros [I1 I2 I3 I4 I5 I6]. constructor; simpl; auto.
  - intros rq Hin. destruct (I5 rq Hin) as [H|H]; [now left | right].
    now apply cancel_all_incl.
  - intros t [H|(k & file & Hin & Hreq)]%cancel_all_inv; [auto|].
    apply (I4 k). unfold recorded, recordedIn.
    now rewrite (in_get _ _ _ I1 Hin).
Qed.

Lemma toggle_inv st : Inv st -> Inv (toggle st).
Proof.
  intros HI. unfold toggle. destruct (inlayHintsEnabled st).
  - eapply Inv_frame; [..|apply dispose_inv, HI]; reflexivity.
  - apply syncAndRenderHints_inv. revert HI. now apply Inv_frame.
Qed.

Lemma fetchHints_inv current k st : Inv st -> Inv (fetchHints current k st).
Proof.
  intros [I1 I2 I3 I4 I5 I6]. unfold fetchHints.
  destruct (get k (sourceFiles st)) as [file|] eqn:E; [|now constructor].
  assert (Hk : In k (keys (sourceFiles st))) by (eapply get_in_keys; eassumption).
  constructor; simpl.
  - now rewrite keys_assign.
  - rewrite map_app. simpl. apply NoDup_app; [assumption | repeat constructor; intros [] |].
    intros t Ht [Et|[]]. apply in_map_iff in Ht as (rq & Erq & Hrq).
    apply I3 in Hrq. lia.
  - intros rq [Hrq|[<-|[]]]%in_app_or; [apply I3 in Hrq; lia | simpl; lia].
  - intros k' t. unfold recorded. simpl.
    destruct (string_dec k' k) as [->|Hne].
    + rewrite recordedIn_assign_same by assumption. intros [= <-]. lia.
    + rewrite recordedIn_assign_other by assumption. intros H. apply I4 in H. lia.
  - intros rq [Hrq|[<-|[]]]%in_app_or; unfold recorded; simpl.
    + destruct (string_dec (rq_uri rq) k) as [Hk'|Hne].
      * right. destruct (I5 rq Hrq) as [H|H].
        -- apply cancelInlaysRequest_own. unfold recorded, recordedIn in H.
           rewrite Hk', E in H. exact H.
        -- now apply cancelInlaysRequest_incl.
      * rewrite recordedIn_assign_other by assumption.
        destruct (I5 rq Hrq) as [H|H]; [now left | right].
        now apply cancelInlaysRequest_incl.
    + left. now apply recordedIn_assign_same.
  - intros t Ht. unfold cancelInlaysRequest in Ht.
    destruct (inlaysRequest file) as [old|] eqn:Eold.
    + destruct Ht as [<-|Ht]; [|apply I6 in Ht; lia].
      assert (old < nextToken st); [|lia].
      apply (I4 k). unfold recorded, recordedIn. now rewrite E.
    + apply I6 in Ht. lia.
Qed.

Lemma clearIfCurrent_inv rq st :
  ~ In (rq_token rq) (map rq_token (inflight st)) -> Inv st -> Inv (clearIfCurrent rq st).
Proof.
  intros Hout [I1 I2 I3 I4 I5 I6]. unfold clearIfCurrent.
  destruct (recorded (rq_uri rq) st) as [t|] eqn:E; [|now constructor].
  destruct (Nat.eqb_spec t (rq_token rq)) as [->|Hne]; [|now constructor].
  constructor; simpl; auto.
  - now rewrite keys_assign.
  - intros k t. unfold recorded. simpl.
    destruct (string_dec k (rq_uri rq)) as [->|Hk].
    + rewrite recordedIn_assign_same by (eapply recordedIn_in_keys; exact E). discriminate.
    + rewrite recordedIn_assign_other by assumption. apply I4.
  - intros rq' Hin. unfold recorded. simpl.
    destruct (string_dec (rq_uri rq') (rq_uri rq)) as [Hk|Hk].
    + destruct (I5 rq' Hin) as [H|H]; [|now right].
      exfalso. apply Hout. rewrite Hk, E in H. injection H as H.
      rewrite H. now apply in_map.
    + rewrite recordedIn_assign_other by assumption. now apply I5.
Qed.

Lemma drop_request_inv t st : Inv st -> Inv (with_inflight (drop_request t (inflight st)) st).
Proof.
  intros [I1 I2 I3 I4 I5 I6]. constructor; simpl.
  - assumption.
  - now apply drop_request_tokens.
  - intros rq [Hin _]%filter_In. auto.
  - assumption.
  - intros rq [Hin _]%filter_In. now apply I5.
  - assumption.
Qed.

Lemma drop_request_out t l : ~ In t (map rq_token (drop_request t l)).
Proof.
  intros (rq & E & [_ Hin]%filter_In)%in_map_iff.
  rewrite E, Nat.eqb_refl in Hin. discriminate.
Qed.

Lemma find_request_token t l rq : find_request t l = Some rq -> rq_token rq = t /\ In rq l.
Proof.
  intros H. apply find_some in H as [Hin E]. apply Nat.eqb_eq in E. auto.
Qed.

Lemma register_present e sf file :
  get (td_uri e) sf = Some file -> register e sf = sf.
Proof.
  intros E. unfold register. rewrite E. now apply set_get_id.
Qed.

Lemma recordedIn_register e sf k : recordedIn k (register e sf) = recordedIn k sf.
Proof.
  destruct (get (td_uri e) sf) as [file|] eqn:E.
  - now rewrite (register_present _ _ _ E).
  - unfold register. rewrite E. unfold recordedIn.
    destruct (string_dec k (td_uri e)) as [->|Hne].
    + now rewrite get_set_same, E.
    + now rewrite get_set_other.
Qed.

Lemma register_inv e st : Inv st -> Inv (with_sourceFiles (register e (sourceFiles st)) st).
Proof.
  intros [I1 I2 I3 I4 I5 I6].
  constructor; unfold recorded in *; simpl; auto.
  - now apply NoDup_keys_set.
  - intros k t. rewrite recordedIn_register. apply I4.
  - intros rq Hin. rewrite recordedIn_register. now apply I5.
Qed.

Section EngineFacts.
Variable isRustDocument : TextDocument -> bool.

Lemma onHints_inv rq p st : Inv st -> Inv (onHints isRustDocument rq p st).
Proof.
  intros HI. unfold onHints.
  destruct p as [[hints|]|]; auto.
  destruct (rq_current rq); auto.
  destruct (_ && _); auto.
  revert HI. now apply Inv_frame.
Qed.

Lemma settle_inv rq outcome st :
  ~ In (rq_token rq) (map rq_token (inflight st)) ->
  Inv st -> Inv (settle isRustDocument rq outcome st).
Proof.
  intros Hout HI. unfold settle, fetchHints_settled, finally_.
  apply onHints_inv. now apply clearIfCurrent_inv.
Qed.

Lemma syncAndRenderHints_resume_inv current st :
  Inv st -> Inv (syncAndRenderHints_resume current st).
Proof.
  unfold syncAndRenderHints_resume.
  generalize (keys (sourceFiles st)). intros ks. revert st.
  induction ks as [|k ks IH]; simpl; intros st HI; [assumption|].
  apply IH. now apply fetchHints_inv.
Qed.

Lemma construct_files_fresh docs acc :
  NoDup (keys (fst acc)) ->
  (forall k, recordedIn k (fst acc) = None) ->
  NoDup (keys (fst (fold_left (construct_file isRustDocument) docs acc))) /\
  (forall k, recordedIn k (fst (fold_left (construct_file isRustDocument) docs acc)) = None).
Proof.
  revert acc. induction docs as [|doc docs IH]; simpl; intros acc Hnd Hnone; [auto|].
  apply IH; unfold construct_file; destruct (isRustDocument (textDocument doc)); simpl; auto.
  - now apply NoDup_keys_set.
  - intros k. unfold recordedIn. destruct (string_dec k (uri doc)) as [->|Hne].
    + now rewrite get_set_same.
    + rewrite get_set_other by assumption. apply Hnone.
Qed.

Lemma construct_inv w s0 : Inv (construct isRustDocument w s0).
Proof.
  unfold construct. apply syncAndRenderHints_inv.
  destruct (construct_files_fresh (documents w) ([], s0)) as [Hnd Hnone];
    [constructor | reflexivity |].
  constructor; unfold recorded; simpl.
  - assumption.
  - constructor.
  - intros rq [].
  - intros k t. rewrite Hnone. discriminate.
  - intros rq [].
  - intros t [].
Qed.

Lemma step_inv ev st : Inv st -> Inv (step isRustDocument ev st).
Proof.
  intros HI. destruct ev as [b|b|e| | | |i|t outcome|w]; simpl.
  - unfold onInsertLeave. destruct (getDocument _ _); auto.
    destruct (isRustDocument _); auto.
    apply syncAndRenderHints_inv. revert HI. now apply Inv_frame.
  - destruct (listening st); auto.
    unfold onDidChangeTextDocument. destruct (getDocument _ _); auto.
    destruct (isRustDocument _); auto.
    destruct (_ && _); [|apply syncAndRenderHints_inv]; revert HI; now apply Inv_frame.
  - destruct (listening st); auto.
    unfold onDidOpenTextDocument. destruct (isRustDocument e); auto.
    destruct (getDocumentByUri _ _); [|now apply register_inv].
    apply syncAndRenderHints_inv.
    eapply Inv_frame; [..|apply (register_inv e), HI]; reflexivity.
  - now apply toggle_inv.
  - now apply syncAndRenderHints_inv.
  - now apply dispose_inv.
  - destruct (nth_error (suspended st) i) as [[|]|]; auto.
    + apply syncAndRenderHints_resume_inv. revert HI. now apply Inv_frame.
    + unfold toggle_resume. simpl. destruct (active (ws st)); revert HI; now apply Inv_frame.
  - destruct (find_request t (inflight st)) as [rq|] eqn:E; auto.
    apply find_request_token in E as [<- _].
    apply settle_inv; [apply drop_request_out | now apply drop_request_inv].
  - revert HI. now apply Inv_frame.
Qed.

Lemma reachable_inv st : reachable isRustDocument st -> Inv st.
Proof.
  induction 1; [apply construct_inv | now apply step_inv].
Qed.

End EngineFacts.

(** ** The sink and the renderer *)

Lemma overlays_app s1 s2 b : overlays (s1 ++ s2) b = overlays s1 b ++ overlays s2 b.
Proof. unfold overlays. now rewrite filter_app, map_app. Qed.

Lemma overlays_clear_same s b : overlays (clearNamespace b s) b = [].
Proof.
  unfold overlays, clearNamespace. induction s as [|[b' v] s IH]; simpl; [reflexivity|].
  destruct (Nat.eqb_spec b' b) as [->|Hne]; simpl; [exact IH|].
  destruct (Nat.eqb_spec b' b); [contradiction | exact IH].
Qed.

Lemma overlays_clear_other s b b' :
  b' <> b -> overlays (clearNamespace b s) b' = overlays s b'.
Proof.
  intros Hne. unfold overlays, clearNamespace.
  induction s as [|[b0 v] s IH]; simpl; [reflexivity|].
  destruct (Nat.eqb_spec b0 b) as [->|Hb]; simpl.
  - destruct (Nat.eqb_spec b b'); [congruence | exact IH].
  - destruct (Nat.eqb_spec b0 b'); simpl; now rewrite IH.
Qed.

Lemma overlays_on_buffer b (l : list VirtualText) : overlays (map (pair b) l) b = l.
Proof.
  unfold overlays. induction l as [|v l IH]; simpl; [reflexivity|].
  rewrite Nat.eqb_refl. simpl. now rewrite IH.
Qed.

Lemma categorize_filter hints d :
  categorize hints d =
  mkDecorations (dec_type d ++ filter isType hints) (dec_param d)
    (dec_chaining d ++ filter isChaining hints).
Proof.
  revert d. induction hints as [|h hints IH]; intros [ty pa ch]; simpl.
  - now rewrite !app_nil_r.
  - rewrite IH. unfold isType, isChaining.
    destruct (kind h); simpl; now rewrite <- ?app_assoc.
Qed.

Lemma drawAll_app b sep group items s :
  drawAll b sep group items s = s ++ map (pair b) (map (virtualTextOf sep group) items).
Proof.
  unfold drawAll. revert s. induction items as [|item items IH]; intros s; simpl.
  - now rewrite app_nil_r.
  - rewrite IH. unfold setVirtualText. now rewrite <- app_assoc.
Qed.

Lemma renderHints_sink cfg doc hints s :
  renderHints cfg doc hints s =
  clearNamespace (bufnr doc) s ++ map (pair (bufnr doc)) (expectedOverlays cfg hints).
Proof.
  unfold renderHints, expectedOverlays. rewrite categorize_filter. simpl.
  destruct (chainingHints cfg), (typeHints cfg); rewrite ?drawAll_app; simpl;
    now rewrite ?map_app, ?app_nil_r, <- ?app_assoc.
Qed.

(** C8 (confirmed).  [renderHints] clears the namespace of the document and
    then sets, for each kind enabled in the configuration, one virtual text
    per hint of that kind: the separator of the kind followed by the label,
    on the line where the range of the hint ends, in the highlight group of
    the kind; a disabled kind sets none, parameter hints set none.  For the
    hints [type ": i32" line 3] and [chaining "-> i32" line 5] this is the
    chaining text [" » -> i32"] on line 5 and the type text on line 3, and
    the chaining text alone when [typeHints] is off. *)
Theorem renderHints_overlays :
  (forall cfg doc hints s,
     renderHints cfg doc hints s =
     clearNamespace (bufnr doc) s ++ map (pair (bufnr doc)) (expectedOverlays cfg hints)) /\
  (forall cfg doc hints s,
     overlays (renderHints cfg doc hints s) (bufnr doc) = expectedOverlays cfg hints) /\
  (forall s,
     overlays (renderHints Sample.cfg Sample.docA Sample.hints s) 1 =
     [ mkVirtualText 5 [(" » -> i32", "CocRustChainingHint")];
       mkVirtualText 3 [(": : i32", "CocRustTypeHint")] ]) /\
  (forall s,
     overlays (renderHints Sample.cfgNoType Sample.docA Sample.hints s) 1 =
     [ mkVirtualText 5 [(" » -> i32", "CocRustChainingHint")] ]).
Proof.
  assert (H : forall cfg doc hints s,
             overlays (renderHints cfg doc hints s) (bufnr doc) = expectedOverlays cfg hints).
  { intros. rewrite renderHints_sink, overlays_app, overlays_clear_same, overlays_on_buffer.
    reflexivity. }
  repeat split.
  - apply renderHints_sink.
  - exact H.
  - intros s. apply (H Sample.cfg Sample.docA).
  - intros s. apply (H Sample.cfgNoType Sample.docA).
Qed.

(** ** Settlement of a fetch *)

(** C7 (confirmed).  Whatever the reason for which the backend call is
    rejected, cancellation included, the promise returned by [fetchHints]
    is fulfilled with [null]; it is never rejected, and the [then] callback
    of the caller does nothing on [null]. *)
Theorem fetchHints_failure_is_null :
  (forall rq reason st,
     snd (fetchHints_settled rq (Rejected reason) st) = Fulfilled None) /\
  (forall rq st,
     snd (fetchHints_settled rq (Rejected RequestCancelled) st) = Fulfilled None) /\
  (forall rq outcome st reason,
     snd (fetchHints_settled rq outcome st) <> Rejected reason) /\
  (forall isRustDocument rq st,
     onHints isRustDocument rq (Fulfilled None) st = st).
Proof.
  repeat split.
  intros rq [hints|r] st reason; simpl; discriminate.
Qed.

(** ** The registry *)

Lemma register_absent e sf :
  get (td_uri e) sf = None -> register e sf = sf ++ [(td_uri e, mkRustSourceFile None e)].
Proof.
  intros E. unfold register. rewrite E.
  apply get_none_iff in E. clear -E.
  induction sf as [|[k v] sf IH]; simpl in *; [reflexivity|].
  destruct (String.eqb_spec (td_uri e) k) as [Hk|Hk].
  - exfalso. apply E. now left.
  - rewrite IH; auto.
Qed.

(** C9 (confirmed).  Registering a document whose uri is tracked leaves the
    map as it is: same entries, same file record, same recorded request.
    Registering an untracked one appends one entry with no request.  Either
    way the keys stay without duplicates, the request recorded under any
    key is unchanged, and registering twice equals registering once.  The
    listener of document-opened leaves the map of a tracked document as it
    is. *)
Theorem register_idempotent :
  (forall e sf file, get (td_uri e) sf = Some file -> register e sf = sf) /\
  (forall e sf, get (td_uri e) sf = None ->
     register e sf = sf ++ [(td_uri e, mkRustSourceFile None e)]) /\
  (forall e sf, NoDup (keys sf) -> NoDup (keys (register e sf))) /\
  (forall e sf k, recordedIn k (register e sf) = recordedIn k sf) /\
  (forall e sf, register e (register e sf) = register e sf) /\
  (forall isRustDocument e st file,
     get (td_uri e) (sourceFiles st) = Some file ->
     sourceFiles (step isRustDocument (DidOpenTextDocument e) st) = sourceFiles st).
Proof.
  split; [exact register_present|].
  split; [exact register_absent|].
  split; [intros e sf; apply NoDup_keys_set|].
  split; [exact recordedIn_register|].
  split.
  - intros e sf. destruct (get (td_uri e) sf) as [file|] eqn:E.
    + now rewrite !(register_present _ _ _ E).
    + unfold register. rewrite E, get_set_same. apply set_get_id, get_set_same.
  - intros isRustDocument e st file E. simpl.
    destruct (listening st); [|reflexivity].
    unfold onDidOpenTextDocument. destruct (isRustDocument e); [|reflexivity].
    assert (Hsf : sourceFiles (with_sourceFiles (register e (sourceFiles st)) st) = sourceFiles st)
      by (simpl; eapply register_present; eassumption).
    destruct (getDocumentByUri _ _); [|exact Hsf].
    unfold syncAndRenderHints. simpl. destruct (inlayHintsEnabled st); exact Hsf.
Qed.

(** The witness takes the engine whose first pass is in flight and opens
    [a.rs] again: token 0 stays recorded. *)
Lemma register_idempotent_witness :
  get "file:///a.rs" (sourceFiles Sample.stFetching)
    = Some (mkRustSourceFile (Some 0) (textDocument Sample.docA)) /\
  register (textDocument Sample.docA) (sourceFiles Sample.stFetching)
    = sourceFiles Sample.stFetching /\
  NoDup (keys (register (textDocument Sample.docA) (sourceFiles Sample.stFetching))) /\
  sourceFiles
    (step Sample.isRust (DidOpenTextDocument (textDocument Sample.docA)) Sample.stFetching)
    = sourceFiles Sample.stFetching.
Proof.
  destruct register_idempotent as (Hpresent & _ & Hnodup & _ & _ & Hopen).
  split; [reflexivity|].
  split; [apply (Hpresent (textDocument Sample.docA) (sourceFiles Sample.stFetching)
                   (mkRustSourceFile (Some 0) (textDocument Sample.docA)) eq_refl)|].
  split.
  - apply Hnodup. vm_compute.
    constructor; [intros [H|[]]; discriminate H|].
    constructor; [intros []|constructor].
  - apply (Hopen Sample.isRust (textDocument Sample.docA) Sample.stFetching
             (mkRustSourceFile (Some 0) (textDocument Sample.docA)) eq_refl).
Defined.

(** ** Changes in insert mode *)

Lemma getDocument_bufnr w b doc : getDocument w b = Some doc -> bufnr doc = b.
Proof.
  intros H. apply find_some in H as [_ E]. now apply Nat.eqb_eq.
Qed.

(** C10 (confirmed).  The listener of document-changed, run for a Rust
    document while the editor is in insert mode and [refreshOnInsertMode]
    is off, clears the namespace of the buffer and does nothing else: no
    task is suspended, no token is allocated, no request is cancelled or
    issued, the map and the flags are as before. *)
Theorem change_in_insert_mode_only_clears
    (isRustDocument : TextDocument -> bool) (st : State) (b : nat) (doc : Document) :
  getDocument (ws st) b = Some doc ->
  isRustDocument (textDocument doc) = true ->
  insertMode (ws st) = true ->
  refreshOnInsertMode (config (ws st)) = false ->
  let st' := onDidChangeTextDocument isRustDocument b st in
  st' = with_sink (clearNamespace b (sink st)) st /\
  (listening st = true -> step isRustDocument (DidChangeTextDocument b) st = st') /\
  overlays (sink st') b = [] /\
  sourceFiles st' = sourceFiles st /\
  inflight st' = inflight st /\
  suspended st' = suspended st /\
  nextToken st' = nextToken st /\
  cancelled st' = cancelled st /\
  inlayHintsEnabled st' = inlayHintsEnabled st /\
  listening st' = listening st /\
  ws st' = ws st.
Proof.
  intros Hdoc Hrust Hins Hcfg st'.
  assert (E : st' = with_sink (clearNamespace b (sink st)) st).
  { unfold st', onDidChangeTextDocument. rewrite Hdoc, Hrust.
    simpl. rewrite Hins, Hcfg. simpl. now rewrite (getDocument_bufnr _ _ _ Hdoc). }
  split; [exact E|].
  split; [intros Hl; simpl; now rewrite Hl|].
  rewrite E. simpl. rewrite overlays_clear_same. repeat split.
Qed.

(** The witness: [a.rs] carries hints and is edited in insert mode. *)
Lemma change_in_insert_mode_only_clears_witness :
  let st := step Sample.isRust (Editor Sample.wsInsert) Sample.stHinted in
  overlays (sink st) 1 <> [] /\
  step Sample.isRust (DidChangeTextDocument 1) st = with_sink (clearNamespace 1 (sink st)) st /\
  overlays (sink (step Sample.isRust (DidChangeTextDocument 1) st)) 1 = [].
Proof.
  intros st.
  destruct (change_in_insert_mode_only_clears Sample.isRust st 1 Sample.docA
              eq_refl eq_refl eq_refl eq_refl) as (H1 & H2 & H3 & _).
  split; [vm_compute; discriminate|].
  rewrite (H2 eq_refl). split; assumption.
Defined.

(** ** The request life cycle *)

Lemma at_most_one {A : Type} (f : A -> nat) (p : A -> bool) (t : nat) (l : list A) :
  NoDup (map f l) ->
  (forall x, In x l -> p x = true -> f x = t) ->
  List.length (filter p l) <= 1.
Proof.
  induction l as [|x l IH]; simpl; intros Hnd Hp; [lia|].
  inversion Hnd as [|? ? Hx Hl]; subst.
  destruct (p x) eqn:Epx; [|apply IH; auto].
  simpl. assert (E : filter p l = []); [|rewrite E; simpl; lia].
  destruct (filter p l) as [|y ys] eqn:Ef; [reflexivity|].
  exfalso. assert (Hy : In y (filter p l)) by (rewrite Ef; now left).
  apply filter_In in Hy as [Hy Epy]. apply Hx.
  rewrite (Hp x (or_introl eq_refl) Epx), <- (Hp y (or_intror Hy) Epy).
  now apply in_map.
Qed.

Lemma find_request_unique l rq :
  NoDup (map rq_token l) -> In rq l -> find_request (rq_token rq) l = Some rq.
Proof.
  unfold find_request. induction l as [|x l IH]; simpl; intros Hnd Hin; [contradiction|].
  inversion Hnd as [|? ? Hx Hl]; subst.
  destruct Hin as [->|Hin]; [now rewrite Nat.eqb_refl|].
  destruct (Nat.eqb_spec (rq_token x) (rq_token rq)) as [E|Hne]; [|auto].
  exfalso. apply Hx. rewrite E. now apply in_map.
Qed.

Section LifeCycle.
Variable isRustDocument : TextDocument -> bool.

Lemma reachable_run evs st :
  reachable isRustDocument st -> reachable isRustDocument (run isRustDocument evs st).
Proof.
  revert st. induction evs as [|ev evs IH]; simpl; intros st H; [assumption|].
  apply IH. now constructor.
Qed.

Lemma sink_settle rq outcome st :
  sink (settle isRustDocument rq outcome st) =
  match outcome, rq_current rq with
  | Fulfilled hints, Some current =>
      if String.eqb (uri current) (rq_uri rq) && isRustDocument (textDocument current)
      then renderHints (config (ws st)) current hints (sink st)
      else sink st
  | _, _ => sink st
  end.
Proof.
  unfold settle, fetchHints_settled, finally_, clearIfCurrent.
  assert (H : forall st', sink st' = sink st -> ws st' = ws st ->
            sink (onHints isRustDocument rq (catch_null outcome) st') =
            match outcome, rq_current rq with
            | Fulfilled hints, Some current =>
                if String.eqb (uri current) (rq_uri rq)
                   && isRustDocument (textDocument current)
                then renderHints (config (ws st)) current hints (sink st)
                else sink st
            | _, _ => sink st
            end).
  { intros st' Hs Hw. destruct outcome as [hints|r]; simpl; [|assumption].
    destruct (rq_current rq) as [current|]; [|assumption].
    destruct (_ && _); simpl; [now rewrite Hs, Hw | assumption]. }
  destruct (recorded (rq_uri rq) st) as [t|]; [|now apply H].
  destruct (Nat.eqb t (rq_token rq)); now apply H.
Qed.

Lemma sourceFiles_settle_stale rq outcome st :
  mayClear st rq = false ->
  sourceFiles (settle isRustDocument rq outcome st) = sourceFiles st.
Proof.
  unfold mayClear, settle, fetchHints_settled, finally_, clearIfCurrent. intros Hm.
  assert (H : forall p, sourceFiles (onHints isRustDocument rq p st) = sourceFiles st).
  { intros [[hints|]|r]; simpl; try reflexivity.
    destruct (rq_current rq); [|reflexivity]. now destruct (_ && _). }
  destruct (recorded (rq_uri rq) st) as [t|]; [|apply H].
  rewrite Hm. apply H.
Qed.

End LifeCycle.

(** C3 (confirmed).  In every reachable state the keys of the map are
    without duplicates, so a document has one file record and with it at
    most one recorded token source, and at most one request in flight for
    a document passes the guard that lets its completion reset the record.
    [fetchHints] cancels the token source recorded for the file, allocates
    one that is neither recorded nor cancelled nor in flight, and records
    it; the backend call is issued from the state so obtained. *)
Theorem one_pending_request_per_document
    (isRustDocument : TextDocument -> bool) (st : State) :
  reachable isRustDocument st ->
  NoDup (keys (sourceFiles st)) /\
  (forall k,
     List.length
       (filter (fun rq => String.eqb (rq_uri rq) k && mayClear st rq) (inflight st)) <= 1) /\
  (forall current k file,
     get k (sourceFiles st) = Some file ->
     let st1 := fst (supersede k file st) in
     let tokenSource := snd (supersede k file st) in
     (forall old, inlaysRequest file = Some old ->
        In old (cancelled st1) /\ old <> tokenSource) /\
     recorded k st1 = Some tokenSource /\
     ~ In tokenSource (cancelled st1) /\
     ~ In tokenSource (map rq_token (inflight st)) /\
     (forall k', recorded k' st <> Some tokenSource) /\
     inflight st1 = inflight st /\
     fetchHints current k st =
       with_inflight
         (inflight st1 ++ [mkRequest tokenSource k (td_uri (document file)) current]) st1).
Proof.
  intros Hreach. pose proof (reachable_inv _ _ Hreach) as HI.
  destruct HI as [I1 I2 I3 I4 I5 I6].
  split; [assumption|]. split.
  - intros k. destruct (recorded k st) as [t|] eqn:Erec.
    + apply (at_most_one rq_token _ t); [assumption|].
      intros rq _ [Hk Hm]%andb_true_iff. apply String.eqb_eq in Hk. subst k.
      unfold mayClear in Hm. rewrite Erec in Hm. apply Nat.eqb_eq in Hm. now symmetry.
    + apply (at_most_one rq_token _ 0); [assumption|].
      intros rq _ [Hk Hm]%andb_true_iff. apply String.eqb_eq in Hk. subst k.
      unfold mayClear in Hm. rewrite Erec in Hm. discriminate.
  - intros current k file E. simpl.
    assert (Hold : forall old, inlaysRequest file = Some old -> old < nextToken st).
    { intros old Hreq. apply (I4 k). unfold recorded, recordedIn. now rewrite E. }
    split; [|repeat split].
    + intros old Hreq. split; [now apply cancelInlaysRequest_own|].
      apply Hold in Hreq. lia.
    + unfold recorded. simpl. apply recordedIn_assign_same.
      eapply get_in_keys; eassumption.
    + unfold cancelInlaysRequest. destruct (inlaysRequest file) as [old|] eqn:Eold.
      * intros [Ho|Hc]; [specialize (Hold _ eq_refl); lia | apply I6 in Hc; lia].
      * intros Hc. apply I6 in Hc. lia.
    + intros (rq & Et & Hrq)%in_map_iff. apply I3 in Hrq. lia.
    + intros k' Hk'. apply I4 in Hk'. lia.
    + unfold fetchHints. now rewrite E.
Qed.

(** The witness: in the engine whose first pass is in flight, a new fetch
    for [a.rs] cancels token 0 and records token 2. *)
Lemma one_pending_request_per_document_witness :
  reachable Sample.isRust Sample.stFetching /\
  (let file := mkRustSourceFile (Some 0) (textDocument Sample.docA) in
   let st1 := fst (supersede "file:///a.rs" file Sample.stFetching) in
   In 0 (cancelled st1) /\ recorded "file:///a.rs" st1 = Some 2 /\ ~ In 2 (cancelled st1)).
Proof.
  assert (Hreach : reachable Sample.isRust Sample.stFetching)
    by apply reachable_run, reachable_construct.
  split; [exact Hreach|].
  destruct (one_pending_request_per_document Sample.isRust Sample.stFetching Hreach)
    as (_ & _ & Hfetch).
  destruct (Hfetch None "file:///a.rs"
              (mkRustSourceFile (Some 0) (textDocument Sample.docA)) eq_refl)
    as (Hold & Hrec & Hfresh & _).
  split; [apply (Hold 0 eq_refl)|].
  split; [exact Hrec | exact Hfresh].
Defined.

Lemma step_settle isRustDocument st rq outcome :
  Inv st -> In rq (inflight st) ->
  step isRustDocument (Settle (rq_token rq) outcome) st =
  settle isRustDocument rq outcome (with_inflight (drop_request (rq_token rq) (inflight st)) st).
Proof.
  intros HI Hin. simpl. now rewrite (find_request_unique _ _ (inv_tokens _ HI) Hin).
Qed.

(** C1 (counterexample).  Token 0, issued for [a.rs], was superseded by
    token 2, and token 2 has settled and drawn its hints.  The backend then
    fulfils token 0 all the same: the [then] callback tests the hints and
    the document read by its pass, not the token, and the older hints
    replace the newer ones on buffer 1. *)
Lemma stale_result_is_painted :
  let rq := mkRequest 0 "file:///a.rs" "file:///a.rs" (Some Sample.docA) in
  In 0 (cancelled Sample.stSuperseded) /\
  find_request 2 (inflight Sample.stSuperseded) = None /\
  overlays (sink Sample.stSuperseded) 1 = expectedOverlays Sample.cfg Sample.hints /\
  overlays (sink (step Sample.isRust (Settle 0 (Fulfilled Sample.staleHints))
                    Sample.stSuperseded)) 1
    = [ mkVirtualText 7 [(": : u8", "CocRustTypeHint")] ] /\
  ~ StaleCompletionIsDiscarded Sample.isRust Sample.stSuperseded rq
      (Fulfilled Sample.staleHints).
Proof.
  intros rq.
  split; [vm_compute; auto|].
  split; [reflexivity|].
  split; [reflexivity|].
  split; [reflexivity|].
  intros H. destruct H as [Hsink _]; [vm_compute; auto | reflexivity |].
  vm_compute in Hsink. discriminate Hsink.
Qed.

(** C1 (amended).  A request in flight whose token is not the one recorded
    for its file has been cancelled, and its completion leaves every file
    record as it is, whatever the outcome.  If the cancelled call is
    rejected, nothing is painted.  If the backend fulfils it all the same,
    its hints are painted under the same test as any other result: the
    document read by its pass has the uri of the file and is a Rust
    document. *)
Theorem superseded_completion
    (isRustDocument : TextDocument -> bool) (st : State) (rq : Request) :
  reachable isRustDocument st ->
  In rq (inflight st) ->
  mayClear st rq = false ->
  In (rq_token rq) (cancelled st) /\
  (forall outcome,
     sourceFiles (step isRustDocument (Settle (rq_token rq) outcome) st) = sourceFiles st) /\
  (forall reason,
     sink (step isRustDocument (Settle (rq_token rq) (Rejected reason)) st) = sink st) /\
  (forall hints,
     sink (step isRustDocument (Settle (rq_token rq) (Fulfilled hints)) st) =
     match rq_current rq with
     | Some current =>
         if String.eqb (uri current) (rq_uri rq) && isRustDocument (textDocument current)
         then renderHints (config (ws st)) current hints (sink st)
         else sink st
     | None => sink st
     end).
Proof.
  intros Hreach Hin Hstale. pose proof (reachable_inv _ _ Hreach) as HI.
  split; [|split; [|split]].
  - destruct (inv_superseded _ HI rq Hin) as [Hrec|Hc]; [|assumption].
    unfold mayClear in Hstale. rewrite Hrec, Nat.eqb_refl in Hstale. discriminate.
  - intros outcome. rewrite (step_settle _ _ _ _ HI Hin).
    now rewrite sourceFiles_settle_stale.
  - intros reason. rewrite (step_settle _ _ _ _ HI Hin). now rewrite sink_settle.
  - intros hints. rewrite (step_settle _ _ _ _ HI Hin). now rewrite sink_settle.
Qed.

(** The witness: token 0 in [stSuperseded], settled as cancelled. *)
Lemma superseded_completion_witness :
  let rq := mkRequest 0 "file:///a.rs" "file:///a.rs" (Some Sample.docA) in
  In rq (inflight Sample.stSuperseded) /\
  mayClear Sample.stSuperseded rq = false /\
  In 0 (cancelled Sample.stSuperseded) /\
  sourceFiles (step Sample.isRust (Settle 0 (Rejected RequestCancelled)) Sample.stSuperseded)
    = sourceFiles Sample.stSuperseded /\
  sink (step Sample.isRust (Settle 0 (Rejected RequestCancelled)) Sample.stSuperseded)
    = sink Sample.stSuperseded.
Proof.
  intros rq.
  assert (Hin : In rq (inflight Sample.stSuperseded)) by (vm_compute; auto).
  assert (Hreach : reachable Sample.isRust Sample.stSuperseded)
    by (do 2 apply reachable_run; apply reachable_construct).
  destruct (superseded_completion Sample.isRust Sample.stSuperseded rq Hreach Hin eq_refl)
    as (Hc & Hsf & Hrej & _).
  split; [exact Hin|]. split; [reflexivity|]. split; [exact Hc|].
  split; [apply (Hsf (Rejected RequestCancelled)) | apply (Hrej RequestCancelled)].
Defined.

(** ** Which document is painted *)

(** C2 (counterexample).  The first pass read [docA] as current document
    and issued token 0 for [a.rs]; the user moved to [docB]; token 0 is
    fulfilled.  Its hints are painted on buffer 1 although [docB] is the
    document displayed. *)
Lemma painted_while_not_displayed :
  active (ws Sample.stMoved) = Some Sample.docB /\
  overlays (sink Sample.stMoved) 1 = [] /\
  overlays (sink (step Sample.isRust (Settle 0 (Fulfilled Sample.hints)) Sample.stMoved)) 1
    = expectedOverlays Sample.cfg Sample.hints /\
  ~ PaintsOnlyDisplayed Sample.isRust Sample.stMoved 0 (Fulfilled Sample.hints).
Proof.
  split; [reflexivity|]. split; [reflexivity|]. split; [reflexivity|].
  intros H.
  destruct (H (mkRequest 0 "file:///a.rs" "file:///a.rs" (Some Sample.docA)) eq_refl)
    as (doc & Hdoc & Huri).
  - vm_compute. discriminate.
  - vm_compute in Hdoc. injection Hdoc as <-. vm_compute in Huri. discriminate Huri.
Qed.

Lemma inflight_fetchHints current k st rq :
  In rq (inflight (fetchHints current k st)) -> In rq (inflight st) \/ rq_current rq = current.
Proof.
  unfold fetchHints. destruct (get k (sourceFiles st)); [|now left].
  simpl. intros [H|[<-|[]]]%in_app_or; [now left | now right].
Qed.

Lemma inflight_resume current st rq :
  In rq (inflight (syncAndRenderHints_resume current st)) ->
  In rq (inflight st) \/ rq_current rq = current.
Proof.
  unfold syncAndRenderHints_resume. generalize (keys (sourceFiles st)). intros ks.
  revert st. induction ks as [|k ks IH]; simpl; intros st H; [now left|].
  apply IH in H as [H|H]; [|now right]. now apply inflight_fetchHints in H.
Qed.

(** C2 (amended).  The settlement of a request paints only if the call is
    fulfilled and the document its pass read from [workspace.document],
    before issuing the fetches, has the uri of the file and is a Rust
    document; the hints are then rendered on that document, and the
    document displayed at the time of the settlement is not looked at.
    Every request issued by a pass carries the document that was active
    when the pass resumed. *)
Theorem paints_document_read_by_pass
    (isRustDocument : TextDocument -> bool) :
  (forall st t rq outcome,
     find_request t (inflight st) = Some rq ->
     sink (step isRustDocument (Settle t outcome) st) =
     match outcome, rq_current rq with
     | Fulfilled hints, Some current =>
         if String.eqb (uri current) (rq_uri rq) && isRustDocument (textDocument current)
         then renderHints (config (ws st)) current hints (sink st)
         else sink st
     | _, _ => sink st
     end) /\
  (forall st i rq,
     nth_error (suspended st) i = Some InSyncAndRenderHints ->
     In rq (inflight (step isRustDocument (Resume i) st)) ->
     In rq (inflight st) \/ rq_current rq = active (ws st)).
Proof.
  split.
  - intros st t rq outcome E. simpl. rewrite E. now rewrite sink_settle.
  - intros st i rq E. simpl. rewrite E. intros H. now apply inflight_resume in H.
Qed.

(** The witness: the settlement of token 0 after the user moved away, and
    the pass that issued it. *)
Lemma paints_document_read_by_pass_witness :
  sink (step Sample.isRust (Settle 0 (Fulfilled Sample.hints)) Sample.stMoved)
    = renderHints Sample.cfg Sample.docA Sample.hints [] /\
  (forall rq, In rq (inflight (step Sample.isRust (Resume 0) Sample.st0)) ->
     In rq (inflight Sample.st0) \/ rq_current rq = Some Sample.docA).
Proof.
  destruct (paints_document_read_by_pass Sample.isRust) as [Hpaint Hpass].
  split.
  - apply (Hpaint Sample.stMoved 0
             (mkRequest 0 "file:///a.rs" "file:///a.rs" (Some Sample.docA))
             (Fulfilled Sample.hints) eq_refl).
  - intros rq. apply (Hpass Sample.st0 0 rq eq_refl).
Defined.

(** ** The toggle *)

(** C4 (counterexample).  [a.rs] carries hints, the user moves to [docB]
    and toggles the hints off; [toggle] resumes and clears the namespace of
    the active document, [docB].  The hints of [a.rs] stay on buffer 1, and
    the cancelled call of token 1 is still in flight.  Such a call is not
    out of reach either: toggled off during the first pass, the engine
    still paints buffer 1 when the backend fulfils the cancelled token 0. *)
Lemma toggle_off_leaves_overlays :
  inlayHintsEnabled Sample.stToggledOff = false /\
  suspended Sample.stToggledOff = [] /\
  overlays (sink Sample.stToggledOff) 1 =
    [ mkVirtualText 5 [(" » -> i32", "CocRustChainingHint")];
      mkVirtualText 3 [(": : i32", "CocRustTypeHint")] ] /\
  map rq_token (inflight Sample.stToggledOff) = [1] /\
  ~ CleanAfterDisable Sample.stToggledOff /\
  inlayHintsEnabled Sample.stToggledOffLate = false /\
  overlays (sink Sample.stToggledOffLate) 1 = expectedOverlays Sample.cfg Sample.hints /\
  ~ CleanAfterDisable Sample.stToggledOffLate.
Proof.
  split; [reflexivity|]. split; [reflexivity|]. split; [reflexivity|]. split; [reflexivity|].
  split; [|split; [reflexivity|split; [reflexivity|]]].
  - intros (_ & _ & Hov). specialize (Hov 1). vm_compute in Hov. discriminate Hov.
  - intros (_ & _ & Hov). specialize (Hov 1). vm_compute in Hov. discriminate Hov.
Qed.

(** C4 (amended).  [toggle] on an enabled engine clears the flag, detaches
    the listeners kept in [disposables] and cancels every recorded token
    source; with that every request in flight is a cancelled one.  The
    records keep their token sources, the calls stay in flight and the
    sink is untouched until the suspended [toggle] resumes, which clears
    the namespace of the one document that is active then. *)
Theorem toggle_off_effects
    (isRustDocument : TextDocument -> bool) (st : State) :
  reachable isRustDocument st ->
  inlayHintsEnabled st = true ->
  let st1 := step isRustDocument CallToggle st in
  inlayHintsEnabled st1 = false /\
  listening st1 = false /\
  (forall k t, recorded k st1 = Some t -> In t (cancelled st1)) /\
  (forall rq, In rq (inflight st1) -> In (rq_token rq) (cancelled st1)) /\
  sourceFiles st1 = sourceFiles st /\
  inflight st1 = inflight st /\
  sink st1 = sink st /\
  suspended st1 = suspended st ++ [InToggle] /\
  (forall st2 i doc,
     nth_error (suspended st2) i = Some InToggle ->
     active (ws st2) = Some doc ->
     sink (step isRustDocument (Resume i) st2) = clearNamespace (bufnr doc) (sink st2)).
Proof.
  intros Hreach Hen. pose proof (reachable_inv _ _ Hreach) as HI.
  simpl. unfold toggle. rewrite Hen. simpl.
  assert (Hrec : forall k t, recorded k st = Some t ->
            In t (fold_left (fun c e => cancelInlaysRequest (snd e) c)
                    (sourceFiles st) (cancelled st))).
  { intros k t H. exact (dispose_cancels_recorded st k t H). }
  repeat split.
  - exact Hrec.
  - intros rq Hin. destruct (inv_superseded _ HI rq Hin) as [H|H].
    + eapply Hrec; eassumption.
    + now apply cancel_all_incl.
  - intros st2 i doc E Hact. rewrite E. simpl. now rewrite Hact.
Qed.

(** The witness: the hints are toggled off while the first pass is in
    flight, with [docA] active. *)
Lemma toggle_off_effects_witness :
  let st1 := step Sample.isRust CallToggle Sample.stFetching in
  inlayHintsEnabled Sample.stFetching = true /\
  listening st1 = false /\
  (forall rq, In rq (inflight st1) -> In (rq_token rq) (cancelled st1)) /\
  map rq_token (inflight st1) = [0; 1] /\
  sink (step Sample.isRust (Resume 0) st1) = clearNamespace 1 (sink st1).
Proof.
  intros st1.
  assert (Hreach : reachable Sample.isRust Sample.stFetching)
    by apply reachable_run, reachable_construct.
  destruct (toggle_off_effects Sample.isRust Sample.stFetching Hreach eq_refl)
    as (_ & Hl & _ & Hc & _ & _ & _ & _ & Hres).
  split; [reflexivity|]. split; [exact Hl|]. split; [exact Hc|]. split; [reflexivity|].
  apply (Hres st1 0 Sample.docA eq_refl eq_refl).
Defined.

(** C5 (the code at the failing input).  [toggle] never registers a
    listener: it leaves [listening] as it is or clears it.  After the hints
    were toggled off and on again the flag is set and the pass has issued a
    fetch for both files, but the listeners disposed by the first [toggle]
    are still detached: a change or the opening of a document reaches no
    listener, where an engine built anew would listen. *)
Theorem toggle_on_leaves_listeners_detached :
  (forall st, listening (toggle st) = if inlayHintsEnabled st then false else listening st) /\
  inlayHintsEnabled Sample.stToggledOffOn = true /\
  recorded "file:///a.rs" Sample.stToggledOffOn = Some 2 /\
  recorded "file:///b.rs" Sample.stToggledOffOn = Some 3 /\
  listening Sample.stToggledOffOn = false /\
  step Sample.isRust (DidChangeTextDocument 1) Sample.stToggledOffOn = Sample.stToggledOffOn /\
  step Sample.isRust (DidOpenTextDocument (mkTextDocument "file:///c.rs" "rust"))
    Sample.stToggledOffOn = Sample.stToggledOffOn /\
  (forall w s0, listening (construct Sample.isRust w s0) = true).
Proof.
  split.
  - intros st. unfold toggle, syncAndRenderHints. destruct (inlayHintsEnabled st); reflexivity.
  - repeat split.
Qed.

(** ** A fetch that fails *)

(** C6 (counterexample).  [a.rs] carries hints; a pass started by a call of
    [syncAndRenderHints], as a change of configuration does, issues token 2
    for it; the backend call fails.  The [then] callback returns on [null]
    before [renderHints] and its [clearNamespace]: the hints stay. *)
Lemma failed_fetch_keeps_overlays :
  overlays (sink Sample.stRefetching) 1 = expectedOverlays Sample.cfg Sample.hints /\
  overlays (sink (step Sample.isRust (Settle 2 (Rejected (RequestFailed "internal error")))
                    Sample.stRefetching)) 1
    = expectedOverlays Sample.cfg Sample.hints /\
  ~ FailureClearsOverlays Sample.isRust Sample.stRefetching 2 (RequestFailed "internal error").
Proof.
  split; [reflexivity|]. split; [reflexivity|].
  intros H.
  specialize (H (mkRequest 2 "file:///a.rs" "file:///a.rs" (Some Sample.docA))
                Sample.docA eq_refl eq_refl).
  vm_compute in H. discriminate H.
Qed.

Lemma sink_syncAndRenderHints st : sink (syncAndRenderHints st) = sink st.
Proof. unfold syncAndRenderHints. now destruct (inlayHintsEnabled st). Qed.

(** C6 (amended).  The settlement of a failed backend call leaves the sink
    as it is: nothing is drawn and nothing is cleared.  The overlays of a
    Rust document are cleared by the listeners of insert-leave, of
    document-changed and of document-opened, before the pass they start
    issues its fetches. *)
Theorem failed_fetch_leaves_sink
    (isRustDocument : TextDocument -> bool) :
  (forall st t reason,
     sink (step isRustDocument (Settle t (Rejected reason)) st) = sink st) /\
  (forall st b doc,
     getDocument (ws st) b = Some doc ->
     isRustDocument (textDocument doc) = true ->
     overlays (sink (step isRustDocument (InsertLeave b) st)) b = [] /\
     (listening st = true ->
      overlays (sink (step isRustDocument (DidChangeTextDocument b) st)) b = [])) /\
  (forall st e doc,
     listening st = true ->
     isRustDocument e = true ->
     getDocumentByUri (ws st) (td_uri e) = Some doc ->
     overlays (sink (step isRustDocument (DidOpenTextDocument e) st)) (bufnr doc) = []).
Proof.
  split; [|split].
  - intros st t reason. simpl.
    destruct (find_request t (inflight st)) as [rq|]; [|reflexivity].
    now rewrite sink_settle.
  - intros st b doc Hdoc Hrust.
    pose proof (getDocument_bufnr _ _ _ Hdoc) as Hb. split.
    + simpl. unfold onInsertLeave. rewrite Hdoc, Hrust, sink_syncAndRenderHints, Hb.
      apply overlays_clear_same.
    + intros Hl. simpl. rewrite Hl. unfold onDidChangeTextDocument. rewrite Hdoc, Hrust.
      destruct (_ && _); rewrite ?sink_syncAndRenderHints, Hb; apply overlays_clear_same.
  - intros st e doc Hl Hrust Hdoc. simpl. rewrite Hl. unfold onDidOpenTextDocument.
    rewrite Hrust. simpl. rewrite Hdoc, sink_syncAndRenderHints. apply overlays_clear_same.
Qed.

(** The witness: the listener of insert-leave on buffer 1 of the engine
    whose [a.rs] carries hints. *)
Lemma failed_fetch_leaves_sink_witness :
  sink (step Sample.isRust (Settle 2 (Rejected (RequestFailed "internal error")))
          Sample.stRefetching) = sink Sample.stRefetching /\
  overlays (sink Sample.stHinted) 1 <> [] /\
  overlays (sink (step Sample.isRust (InsertLeave 1) Sample.stHinted)) 1 = [].
Proof.
  destruct (failed_fetch_leaves_sink Sample.isRust) as (Hfail & Hclear & _).
  split; [apply Hfail|].
  split; [vm_compute; discriminate|].
  exact (proj1 (Hclear Sample.stHinted 1 Sample.docA eq_refl eq_refl)).
Defined.

(** ** A whole pass *)

Lemma get_app_absent {V : Type} (pre m : JsMap.t V) k :
  ~ In k (keys pre) -> get k (pre ++ m) = get k m.
Proof.
  induction pre as [|[k' v'] pre IH]; simpl; intros H; [reflexivity|].
  destruct (String.eqb_spec k k') as [->|Hne]; [exfalso; apply H; now left|].
  apply IH. intros Hin. apply H. now right.
Qed.

Lemma set_app_absent {V : Type} (pre m : JsMap.t V) k v :
  ~ In k (keys pre) -> set k v (pre ++ m) = pre ++ set k v m.
Proof.
  induction pre as [|[k' v'] pre IH]; simpl; intros H; [reflexivity|].
  destruct (String.eqb_spec k k') as [->|Hne]; [exfalso; apply H; now left|].
  rewrite IH; [reflexivity|]. intros Hin. apply H. now right.
Qed.

Lemma pass_from pre current suf st :
  sourceFiles st = pre ++ suf ->
  NoDup (keys (pre ++ suf)) ->
  fold_left (fun st k => fetchHints current k st) (keys suf) st =
  mkState (pre ++ passFiles (nextToken st) suf)
    (listening st) (inlayHintsEnabled st)
    (nextToken st + List.length suf)
    (fold_left (fun c e => cancelInlaysRequest (snd e) c) suf (cancelled st))
    (inflight st ++ passRequests current (nextToken st) suf)
    (suspended st) (sink st) (ws st).
Proof.
  revert pre st. induction suf as [|[k file] suf IH]; intros pre st Hsf Hnd; simpl.
  - rewrite Nat.add_0_r, !app_nil_r. rewrite app_nil_r in Hsf. rewrite <- Hsf.
    now destruct st.
  - assert (Hk : ~ In k (keys pre)).
    { unfold keys in *. rewrite map_app in Hnd. simpl in Hnd.
      apply NoDup_remove_2 in Hnd. intros Hin. apply Hnd. apply in_or_app. now left. }
    assert (Hget : get k (sourceFiles st) = Some file).
    { rewrite Hsf, get_app_absent by assumption. simpl. now rewrite String.eqb_refl. }
    assert (Hset : assignInlaysRequest k (Some (nextToken st)) (sourceFiles st)
                   = (pre ++ [(k, mkRustSourceFile (Some (nextToken st)) (document file))])
                     ++ suf).
    { unfold assignInlaysRequest. rewrite Hget, Hsf, set_app_absent by assumption.
      simpl. rewrite String.eqb_refl. now rewrite <- app_assoc. }
    unfold fetchHints at 2. rewrite Hget. simpl.
    rewrite (IH (pre ++ [(k, mkRustSourceFile (Some (nextToken st)) (document file))]));
      simpl.
    + rewrite <- !app_assoc. simpl. f_equal. lia.
    + exact Hset.
    + unfold keys in *. rewrite !map_app in *. simpl in *.
      now rewrite <- app_assoc.
Qed.

Lemma passRequests_shape current n sf :
  map rq_uri (passRequests current n sf) = keys sf /\
  map rq_token (passRequests current n sf) = seq n (List.length sf) /\
  keys (passFiles n sf) = keys sf /\
  map (fun e => inlaysRequest (snd e)) (passFiles n sf) = map Some (seq n (List.length sf)) /\
  map (fun e => document (snd e)) (passFiles n sf) = map (fun e => document (snd e)) sf.
Proof.
  revert n. induction sf as [|[k file] sf IH]; intros n; simpl; [repeat split|].
  destruct (IH (S n)) as (H1 & H2 & H3 & H4 & H5).
  unfold keys in *. now rewrite H1, H2, H3, H4, H5.
Qed.

Lemma resume_afterPass current st :
  NoDup (keys (sourceFiles st)) ->
  syncAndRenderHints_resume current st = afterPass current st.
Proof.
  intros Hnd. unfold syncAndRenderHints_resume, afterPass.
  now rewrite (pass_from [] current (sourceFiles st) st eq_refl Hnd).
Qed.

(** X1.  The [forEach] of a resumed pass, run on a map without duplicate
    keys, issues exactly one fetch per file, in the order of the map, with
    consecutive new token sources: the [n]-th file gets the [n]-th of them
    recorded, every token source recorded before is cancelled, the keys and
    documents of the map are unchanged, and nothing else of the state
    changes.  On an empty map the pass does nothing. *)
Theorem pass_issues_one_fetch_per_file (current : option Document) (st : State) :
  NoDup (keys (sourceFiles st)) ->
  syncAndRenderHints_resume current st = afterPass current st /\
  map rq_uri (passRequests current (nextToken st) (sourceFiles st)) = keys (sourceFiles st) /\
  map rq_token (passRequests current (nextToken st) (sourceFiles st))
    = seq (nextToken st) (List.length (sourceFiles st)) /\
  keys (passFiles (nextToken st) (sourceFiles st)) = keys (sourceFiles st) /\
  map (fun e => inlaysRequest (snd e)) (passFiles (nextToken st) (sourceFiles st))
    = map Some (seq (nextToken st) (List.length (sourceFiles st))) /\
  map (fun e => document (snd e)) (passFiles (nextToken st) (sourceFiles st))
    = map (fun e => document (snd e)) (sourceFiles st) /\
  (sourceFiles st = [] -> syncAndRenderHints_resume current st = st).
Proof.
  intros Hnd.
  pose proof (resume_afterPass current st Hnd) as E.
  split; [exact E|].
  destruct (passRequests_shape current (nextToken st) (sourceFiles st))
    as (H1 & H2 & H3 & H4 & H5).
  repeat (split; [assumption|]).
  intros Hempty. rewrite E. unfold afterPass. rewrite Hempty. simpl.
  rewrite Nat.add_0_r, app_nil_r. rewrite <- Hempty. now destruct st.
Qed.

(** The witness: the first pass of the sample engine issues tokens 0 and 1
    for [a.rs] and [b.rs]. *)
Lemma pass_issues_one_fetch_per_file_witness :
  NoDup (keys (sourceFiles Sample.st0)) /\
  syncAndRenderHints_resume (Some Sample.docA) Sample.st0
    = afterPass (Some Sample.docA) Sample.st0 /\
  map rq_token (inflight (afterPass (Some Sample.docA) Sample.st0)) = [0; 1].
Proof.
  assert (Hnd : NoDup (keys (sourceFiles Sample.st0))).
  { vm_compute. constructor; [intros [H|[]]; discriminate H|].
    constructor; [intros []|constructor]. }
  split; [exact Hnd|].
  split; [exact (proj1 (pass_issues_one_fetch_per_file (Some Sample.docA) Sample.st0 Hnd))|].
  reflexivity.
Defined.

Lemma passFiles_recorded current n sf k :
  NoDup (keys sf) -> In k (keys sf) ->
  exists t, n <= t /\ recordedIn k (passFiles n sf) = Some t /\
    exists rq, In rq (passRequests current n sf) /\
      rq_token rq = t /\ rq_uri rq = k /\ rq_current rq = current.
Proof.
  revert n. induction sf as [|[k' file] sf IH]; intros n Hnd Hin; simpl in *; [contradiction|].
  apply NoDup_cons_iff in Hnd as [Hk' Hnd]. unfold recordedIn. simpl.
  destruct (String.eqb_spec k k') as [->|Hne].
  - exists n. split; [lia|]. split; [reflexivity|].
    eexists. split; [now left|]. repeat split.
  - destruct Hin as [E|Hin]; [congruence|].
    destruct (IH (S n) Hnd Hin) as (t & Ht & Hrec & rq & Hrq & H1 & H2 & H3).
    exists t. split; [lia|]. split; [exact Hrec|].
    exists rq. split; [now right|]. auto.
Qed.

(** X2.  After a pass over a reachable state every tracked file has a call
    in flight whose token source is recorded for it and is not cancelled,
    carrying the document the pass read; the token source recorded before
    the pass is cancelled. *)
Theorem pass_leaves_live_requests
    (isRustDocument : TextDocument -> bool) (current : option Document)
    (st : State) (k : string) :
  reachable isRustDocument st ->
  In k (keys (sourceFiles st)) ->
  let st' := syncAndRenderHints_resume current st in
  (exists t rq,
     recorded k st' = Some t /\ ~ In t (cancelled st') /\
     In rq (inflight st') /\ rq_token rq = t /\ rq_uri rq = k /\ rq_current rq = current) /\
  (forall t0, recorded k st = Some t0 -> In t0 (cancelled st')).
Proof.
  intros Hreach Hin st'. pose proof (reachable_inv _ _ Hreach) as HI.
  destruct HI as [I1 I2 I3 I4 I5 I6].
  assert (E : st' = afterPass current st)
    by (apply (resume_afterPass current st I1)).
  rewrite E. split.
  - destruct (passFiles_recorded current (nextToken st) _ k I1 Hin)
      as (t & Ht & Hrec & rq & Hrq & H1 & H2 & H3).
    exists t, rq. split; [exact Hrec|]. split.
    + simpl. intros [Hc|(k0 & file & Hf & Hreq)]%cancel_all_inv.
      * apply I6 in Hc. lia.
      * assert (t < nextToken st); [|lia].
        apply (I4 k0). unfold recorded, recordedIn. now rewrite (in_get _ _ _ I1 Hf).
    + split; [simpl; apply in_or_app; now right | auto].
  - intros t0 Hrec. exact (dispose_cancels_recorded st k t0 Hrec).
Qed.

(** The witness: a second pass over the engine whose first pass is in
    flight. *)
Lemma pass_leaves_live_requests_witness :
  let st' := syncAndRenderHints_resume (Some Sample.docA) Sample.stFetching in
  In "file:///a.rs" (keys (sourceFiles Sample.stFetching)) /\
  (exists t rq,
     recorded "file:///a.rs" st' = Some t /\ ~ In t (cancelled st') /\
     In rq (inflight st') /\ rq_token rq = t /\ rq_uri rq = "file:///a.rs" /\
     rq_current rq = Some Sample.docA) /\
  In 0 (cancelled st').
Proof.
  intros st'.
  assert (Hin : In "file:///a.rs" (keys (sourceFiles Sample.stFetching)))
    by (vm_compute; auto).
  assert (Hreach : reachable Sample.isRust Sample.stFetching)
    by apply reachable_run, reachable_construct.
  destruct (pass_leaves_live_requests Sample.isRust (Some Sample.docA) Sample.stFetching
              "file:///a.rs" Hreach Hin) as [Hlive Hold].
  split; [exact Hin|]. split; [exact Hlive|]. apply Hold. reflexivity.
Defined.

Lemma nth_error_last {A : Type} (l : list A) (x : A) :
  nth_error (l ++ [x]) (List.length l) = Some x.
Proof. induction l as [|y l IH]; simpl; auto. Qed.

Lemma remove_nth_last {A : Type} (l : list A) (x : A) :
  remove_nth (List.length l) (l ++ [x]) = l.
Proof. induction l as [|y l IH]; simpl; [reflexivity | now rewrite IH]. Qed.

(** X3.  [toggle] on a disabled engine sets the flag and suspends one pass;
    when that pass resumes it is a whole pass over the map with the
    document active then: one new fetch per tracked file.  The sink and the
    listeners are left as they were. *)
Theorem toggle_on_runs_whole_pass
    (isRustDocument : TextDocument -> bool) (st : State) :
  reachable isRustDocument st ->
  inlayHintsEnabled st = false ->
  let st1 := step isRustDocument CallToggle st in
  let st2 := step isRustDocument (Resume (List.length (suspended st))) st1 in
  suspended st1 = suspended st ++ [InSyncAndRenderHints] /\
  inlayHintsEnabled st2 = true /\
  suspended st2 = suspended st /\
  sourceFiles st2 = passFiles (nextToken st) (sourceFiles st) /\
  inflight st2 =
    inflight st ++ passRequests (active (ws st)) (nextToken st) (sourceFiles st) /\
  nextToken st2 = nextToken st + List.length (sourceFiles st) /\
  sink st2 = sink st /\
  listening st2 = listening st.
Proof.
  intros Hreach Hen. pose proof (reachable_inv _ _ Hreach) as HI.
  simpl. unfold toggle. rewrite Hen. unfold syncAndRenderHints. simpl.
  rewrite nth_error_last, remove_nth_last.
  split; [reflexivity|].
  match goal with
  | |- context [syncAndRenderHints_resume ?c ?s] =>
      rewrite (resume_afterPass c s (inv_keys _ HI))
  end.
  simpl. repeat split.
Qed.

(** The witness: the sample engine toggled off, its [toggle] resumed, and
    toggled on again. *)
Lemma toggle_on_runs_whole_pass_witness :
  let st := run Sample.isRust [CallToggle; Resume 0] Sample.stFetching in
  let st2 := step Sample.isRust (Resume 0) (step Sample.isRust CallToggle st) in
  inlayHintsEnabled st = false /\
  inlayHintsEnabled st2 = true /\
  map rq_token (inflight st2) = [0; 1; 2; 3] /\
  listening st2 = false.
Proof.
  intros st st2.
  assert (Hreach : reachable Sample.isRust st)
    by (do 2 apply reachable_run; apply reachable_construct).
  destruct (toggle_on_runs_whole_pass Sample.isRust st Hreach eq_refl)
    as (_ & Hen & _ & _ & Hfl & _ & _ & Hl).
  split; [reflexivity|]. split; [exact Hen|].
  split; [reflexivity|].
  exact Hl.
Defined.

(** ** What the records and the calls in flight say about each other *)

Lemma token_names_request l a b :
  NoDup (map rq_token l) -> In a l -> In b l -> rq_token a = rq_token b -> a = b.
Proof.
  induction l as [|x l IH]; simpl; intros Hnd Ha Hb E; [contradiction|].
  apply NoDup_cons_iff in Hnd as [Hx Hnd].
  destruct Ha as [->|Ha], Hb as [->|Hb]; auto.
  - exfalso. apply Hx. rewrite E. now apply in_map.
  - exfalso. apply Hx. rewrite <- E. now apply in_map.
Qed.

Lemma get_assign k k' r sf file' :
  get k' (assignInlaysRequest k r sf) = Some file' ->
  exists file, get k' sf = Some file /\ document file' = document file.
Proof.
  unfold assignInlaysRequest. destruct (get k sf) as [file|] eqn:E; [|eauto].
  destruct (string_dec k' k) as [->|Hne].
  - rewrite get_set_same. intros [= <-]. eauto.
  - rewrite get_set_other by assumption. eauto.
Qed.

Section Relations.
Variable isRustDocument : TextDocument -> bool.

Lemma onHints_frame rq p st :
  sourceFiles (onHints isRustDocument rq p st) = sourceFiles st /\
  inflight (onHints isRustDocument rq p st) = inflight st.
Proof.
  destruct p as [[hints|]|r]; simpl; auto.
  destruct (rq_current rq); auto. now destruct (_ && _).
Qed.

Lemma settle_records rq outcome st :
  inflight (settle isRustDocument rq outcome st) = inflight st /\
  sourceFiles (settle isRustDocument rq outcome st) =
    (if mayClear st rq
     then assignInlaysRequest (rq_uri rq) None (sourceFiles st)
     else sourceFiles st).
Proof.
  unfold settle, fetchHints_settled, finally_, clearIfCurrent, mayClear.
  destruct (recorded (rq_uri rq) st) as [t|];
    [destruct (Nat.eqb t (rq_token rq))|];
    destruct (onHints_frame rq (catch_null outcome) st) as [H1 H2];
    match goal with
    | |- context [onHints _ _ _ ?s] =>
        destruct (onHints_frame rq (catch_null outcome) s) as [H3 H4]
    end; rewrite ?H3, ?H4; auto.
Qed.

Lemma recorded_settle rq outcome st k :
  In (rq_uri rq) (keys (sourceFiles st)) ->
  recorded k (settle isRustDocument rq outcome st) =
  if mayClear st rq && String.eqb k (rq_uri rq) then None else recorded k st.
Proof.
  intros Hin. unfold recorded. rewrite (proj2 (settle_records rq outcome st)).
  destruct (mayClear st rq); [|reflexivity]. simpl.
  destruct (String.eqb_spec k (rq_uri rq)) as [->|Hne].
  - now apply recordedIn_assign_same.
  - now apply recordedIn_assign_other.
Qed.

Lemma mayClear_in_keys st rq : mayClear st rq = true -> In (rq_uri rq) (keys (sourceFiles st)).
Proof.
  unfold mayClear. destruct (recorded (rq_uri rq) st) as [t|] eqn:E; [|discriminate].
  intros _. eapply recordedIn_in_keys. exact E.
Qed.

Lemma step_RecordedInFlight ev st :
  Inv st -> RecordedInFlight st -> RecordedInFlight (step isRustDocument ev st).
Proof.
  intros HI HR.
  assert (Hframe : forall st', sourceFiles st' = sourceFiles st ->
            inflight st' = inflight st -> RecordedInFlight st').
  { intros st' Hs Hf k t. unfold recorded. rewrite Hs, Hf. apply HR. }
  assert (Hsync : forall st', RecordedInFlight st' -> RecordedInFlight (syncAndRenderHints st')).
  { intros st' H. unfold syncAndRenderHints. now destruct (inlayHintsEnabled st'). }
  destruct ev as [b|b|e| | | |i|t outcome|w]; simpl.
  - unfold onInsertLeave. destruct (getDocument _ _); auto.
    destruct (isRustDocument _); auto.
  - destruct (listening st); auto.
    unfold onDidChangeTextDocument. destruct (getDocument _ _); auto.
    destruct (isRustDocument _); auto.
    destruct (_ && _); auto.
  - destruct (listening st); auto.
    unfold onDidOpenTextDocument. destruct (isRustDocument e); auto.
    assert (Hreg : forall s, RecordedInFlight
              (with_sink s (with_sourceFiles (register e (sourceFiles st)) st))).
    { intros s k t. unfold recorded. simpl. rewrite recordedIn_register. apply HR. }
    destruct (getDocumentByUri _ _).
    + apply Hsync, Hreg.
    + intros k t. unfold recorded. simpl. rewrite recordedIn_register. apply HR.
  - unfold toggle. destruct (inlayHintsEnabled st); [auto|].
    apply Hsync. now apply Hframe.
  - auto.
  - auto.
  - destruct (nth_error (suspended st) i) as [[|]|]; auto.
    + match goal with
      | |- RecordedInFlight (syncAndRenderHints_resume ?c ?s) =>
          rewrite (resume_afterPass c s (inv_keys _ HI))
      end.
      intros k t. unfold recorded. simpl. intros Hrec.
      assert (Hk : In k (keys (sourceFiles st))).
      { apply recordedIn_in_keys in Hrec.
        now rewrite (proj1 (proj2 (proj2 (passRequests_shape None (nextToken st) _)))) in Hrec. }
      destruct (passFiles_recorded (active (ws st)) (nextToken st) _ k (inv_keys _ HI) Hk)
        as (t' & _ & Hrec' & rq & Hrq & H1 & H2 & _).
      exists rq. split; [apply in_or_app; now right|]. split; [congruence | assumption].
    + unfold toggle_resume. simpl. destruct (active (ws st)); auto.
  - destruct (find_request t (inflight st)) as [rq|] eqn:E; auto.
    apply find_request_token in E as [<- Hrq].
    set (st1 := with_inflight (drop_request (rq_token rq) (inflight st)) st).
    intros k t. unfold recorded. rewrite (proj1 (settle_records rq outcome st1)).
    rewrite (proj2 (settle_records rq outcome st1)).
    assert (Hkeep : forall t', recorded k st = Some t' -> t' <> rq_token rq ->
              exists rq', In rq' (inflight st1) /\ rq_token rq' = t' /\ rq_uri rq' = k).
    { intros t' Hrec Hne. destruct (HR k t' Hrec) as (rq' & Hin & H1 & H2).
      exists rq'. split; [|auto]. simpl. apply filter_In. split; [assumption|].
      rewrite H1. now apply negb_true_iff, Nat.eqb_neq. }
    assert (Hown : forall k', recorded k' st = Some (rq_token rq) -> k' = rq_uri rq).
    { intros k' Hrec. destruct (HR k' _ Hrec) as (rq' & Hin & H1 & H2).
      now rewrite <- H2, (token_names_request _ _ _ (inv_tokens _ HI) Hin Hrq H1). }
    destruct (mayClear st1 rq) eqn:Hm.
    + destruct (string_dec k (rq_uri rq)) as [->|Hne].
      * rewrite recordedIn_assign_same by (apply (mayClear_in_keys st1 rq Hm)). discriminate.
      * rewrite recordedIn_assign_other by assumption. intros Hrec.
        apply Hkeep; [assumption|]. intros ->. apply Hne. now apply Hown.
    + intros Hrec. apply Hkeep; [assumption|]. intros ->.
      pose proof (Hown k Hrec) as ->.
      change (recorded (rq_uri rq) st = Some (rq_token rq)) in Hrec.
      change (mayClear st rq = false) in Hm. unfold mayClear in Hm.
      rewrite Hrec, Nat.eqb_refl in Hm. discriminate.
  - auto.
Qed.

Lemma construct_records_none w s0 k : recorded k (construct isRustDocument w s0) = None.
Proof.
  unfold construct, syncAndRenderHints, recorded. simpl.
  apply (construct_files_fresh isRustDocument (documents w) ([], s0));
    [constructor | reflexivity].
Qed.

(** X4.  In every reachable state a token source recorded for a file names
    a backend call that is in flight for that file: a file whose fetch has
    settled has [inlaysRequest] back at [null], even after [dispose]. *)
Theorem recorded_request_is_in_flight (st : State) (k : string) (t : nat) :
  reachable isRustDocument st ->
  recorded k st = Some t ->
  exists rq, In rq (inflight st) /\ rq_token rq = t /\ rq_uri rq = k.
Proof.
  intros Hreach. revert k t. change (RecordedInFlight st).
  induction Hreach as [w s0|ev st Hreach IH].
  - intros k t. rewrite construct_records_none. discriminate.
  - apply step_RecordedInFlight; [now apply reachable_inv with isRustDocument | exact IH].
Qed.

(** X5.  When the call whose token source is the recorded one settles,
    whatever the outcome, the record of its file goes back to [null], the
    records of the other files are untouched and the call leaves the calls
    in flight. *)
Theorem current_completion_resets_record
    (st : State) (rq : Request) (outcome : Settled (list InlayHint)) :
  reachable isRustDocument st ->
  In rq (inflight st) ->
  mayClear st rq = true ->
  let st' := step isRustDocument (Settle (rq_token rq) outcome) st in
  recorded (rq_uri rq) st' = None /\
  (forall k, k <> rq_uri rq -> recorded k st' = recorded k st) /\
  inflight st' = drop_request (rq_token rq) (inflight st) /\
  ~ In (rq_token rq) (map rq_token (inflight st')).
Proof.
  intros Hreach Hin Hm st'. pose proof (reachable_inv _ _ Hreach) as HI.
  unfold st'. rewrite (step_settle _ _ _ _ HI Hin).
  set (st1 := with_inflight (drop_request (rq_token rq) (inflight st)) st).
  assert (Hm1 : mayClear st1 rq = true) by exact Hm.
  pose proof (mayClear_in_keys st1 rq Hm1) as Hk.
  split; [|split; [|split]].
  - rewrite (recorded_settle rq outcome st1 _ Hk), Hm1, String.eqb_refl. reflexivity.
  - intros k Hne. rewrite (recorded_settle rq outcome st1 _ Hk), Hm1.
    simpl. destruct (String.eqb_spec k (rq_uri rq)); [contradiction | reflexivity].
  - now rewrite (proj1 (settle_records rq outcome st1)).
  - rewrite (proj1 (settle_records rq outcome st1)). apply drop_request_out.
Qed.

End Relations.

(** The witnesses: token 1 of [b.rs] in the engine whose first pass is in
    flight, and its settlement. *)
Lemma recorded_request_is_in_flight_witness :
  recorded "file:///b.rs" Sample.stFetching = Some 1 /\
  exists rq, In rq (inflight Sample.stFetching) /\ rq_token rq = 1 /\
             rq_uri rq = "file:///b.rs".
Proof.
  split; [reflexivity|].
  apply (recorded_request_is_in_flight Sample.isRust Sample.stFetching "file:///b.rs" 1).
  - apply reachable_run, reachable_construct.
  - reflexivity.
Defined.

Lemma current_completion_resets_record_witness :
  let rq := mkRequest 1 "file:///b.rs" "file:///b.rs" (Some Sample.docA) in
  let st' := step Sample.isRust (Settle 1 (Rejected RequestCancelled)) Sample.stFetching in
  In rq (inflight Sample.stFetching) /\
  mayClear Sample.stFetching rq = true /\
  recorded "file:///b.rs" st' = None /\
  recorded "file:///a.rs" st' = Some 0.
Proof.
  intros rq st'.
  assert (Hin : In rq (inflight Sample.stFetching)) by (vm_compute; auto).
  assert (Hreach : reachable Sample.isRust Sample.stFetching)
    by apply reachable_run, reachable_construct.
  destruct (current_completion_resets_record Sample.isRust Sample.stFetching rq
              (Rejected RequestCancelled) Hreach Hin eq_refl) as (Hnone & Hother & _).
  split; [exact Hin|]. split; [reflexivity|]. split; [exact Hnone|].
  exact (eq_trans (Hother "file:///a.rs" ltac:(discriminate)) eq_refl).
Defined.

(** ** What the map holds *)

Lemma keys_register e sf k : In k (keys sf) -> In k (keys (register e sf)).
Proof.
  intros Hin. destruct (get (td_uri e) sf) as [file|] eqn:E.
  - now rewrite (register_present _ _ _ E).
  - rewrite (register_absent _ _ E). unfold keys. rewrite map_app.
    apply in_or_app. now left.
Qed.

Section Tracked.
Variable isRustDocument : TextDocument -> bool.

Lemma fetchHints_tracked current k st :
  TrackedAreRust isRustDocument st -> TrackedAreRust isRustDocument (fetchHints current k st).
Proof.
  intros [Hf Hr]. unfold fetchHints.
  destruct (get k (sourceFiles st)) as [file|] eqn:E; [|now split].
  split; simpl.
  - intros k' file' Hget. apply get_assign in Hget as (file0 & Hget & ->). now apply Hf.
  - rewrite keys_assign. intros rq [Hin|[<-|[]]]%in_app_or; [now apply Hr|]. simpl.
    split; [now apply (Hf k file) | eapply get_in_keys; eassumption].
Qed.

Lemma construct_files_tracked docs acc :
  (forall k file, get k (fst acc) = Some file ->
     td_uri (document file) = k /\ isRustDocument (document file) = true) ->
  forall k file,
    get k (fst (fold_left (construct_file isRustDocument) docs acc)) = Some file ->
    td_uri (document file) = k /\ isRustDocument (document file) = true.
Proof.
  revert acc. induction docs as [|doc docs IH]; simpl; intros acc H; [exact H|].
  apply IH. unfold construct_file.
  destruct (isRustDocument (textDocument doc)) eqn:Hrust; [|exact H]. simpl.
  intros k file. destruct (string_dec k (uri doc)) as [->|Hne].
  - rewrite get_set_same. intros [= <-]. now split.
  - rewrite get_set_other by assumption. apply H.
Qed.

Lemma register_tracked e st s :
  isRustDocument e = true ->
  TrackedAreRust isRustDocument st ->
  TrackedAreRust isRustDocument
    (with_sink s (with_sourceFiles (register e (sourceFiles st)) st)).
Proof.
  intros Hrust [Hf Hr]. split; simpl.
  - intros k file. destruct (get (td_uri e) (sourceFiles st)) as [file0|] eqn:E.
    + rewrite (register_present _ _ _ E). apply Hf.
    + unfold register. rewrite E. destruct (string_dec k (td_uri e)) as [->|Hne].
      * rewrite get_set_same. intros [= <-]. now split.
      * rewrite get_set_other by assumption. apply Hf.
  - intros rq Hin. destruct (Hr rq Hin) as [H1 H2]. split; [assumption|].
    now apply keys_register.
Qed.

Lemma step_tracked ev st :
  TrackedAreRust isRustDocument st -> TrackedAreRust isRustDocument (step isRustDocument ev st).
Proof.
  intros HT.
  assert (Hframe : forall st', sourceFiles st' = sourceFiles st ->
            inflight st' = inflight st -> TrackedAreRust isRustDocument st').
  { intros st' Hs Hf. unfold TrackedAreRust. rewrite Hs, Hf. exact HT. }
  assert (Hsync : forall st', TrackedAreRust isRustDocument st' ->
            TrackedAreRust isRustDocument (syncAndRenderHints st')).
  { intros st' H. unfold syncAndRenderHints. now destruct (inlayHintsEnabled st'). }
  destruct ev as [b|b|e| | | |i|t outcome|w]; simpl.
  - unfold onInsertLeave. destruct (getDocument _ _); auto.
    destruct (isRustDocument _); auto.
  - destruct (listening st); auto.
    unfold onDidChangeTextDocument. destruct (getDocument _ _); auto.
    destruct (isRustDocument _); auto. destruct (_ && _); auto.
  - destruct (listening st); auto.
    unfold onDidOpenTextDocument. destruct (isRustDocument e) eqn:Hrust; auto.
    destruct (getDocumentByUri _ _).
    + apply Hsync. now apply register_tracked.
    + exact (register_tracked e st (sink st) Hrust HT).
  - unfold toggle. destruct (inlayHintsEnabled st); [auto|]. apply Hsync. auto.
  - auto.
  - auto.
  - destruct (nth_error (suspended st) i) as [[|]|]; auto.
    + unfold syncAndRenderHints_resume. simpl.
      assert (H0 : TrackedAreRust isRustDocument
                (with_suspended (remove_nth i (suspended st)) st)) by auto.
      revert H0. generalize (with_suspended (remove_nth i (suspended st)) st).
      generalize (keys (sourceFiles st)). intros ks.
      induction ks as [|k ks IH]; simpl; intros s Hs; [assumption|].
      apply IH. now apply fetchHints_tracked.
    + unfold toggle_resume. simpl. destruct (active (ws st)); auto.
  - destruct (find_request t (inflight st)) as [rq|] eqn:E; auto.
    set (st1 := with_inflight (drop_request t (inflight st)) st).
    destruct HT as [Hf Hr]. split.
    + intros k file. rewrite (proj2 (settle_records isRustDocument rq outcome st1)).
      destruct (mayClear st1 rq); [|apply Hf].
      intros Hget. apply get_assign in Hget as (file0 & Hget & ->). now apply Hf.
    + intros rq'. rewrite (proj1 (settle_records isRustDocument rq outcome st1)).
      rewrite (proj2 (settle_records isRustDocument rq outcome st1)).
      simpl. intros [Hin _]%filter_In.
      destruct (mayClear st1 rq); [rewrite keys_assign|]; now apply Hr.
  - auto.
Qed.

(** X6.  In every reachable state each file of the map is a Rust document
    stored under the uri of its own document, and each call in flight
    belongs to a file of the map and was sent to the backend with the key
    of that file as [textDocument.uri]: documents that fail
    [isRustDocument] are never tracked and never fetched. *)
Theorem tracked_files_are_rust_documents (st : State) :
  reachable isRustDocument st ->
  (forall k file, get k (sourceFiles st) = Some file ->
     td_uri (document file) = k /\ isRustDocument (document file) = true) /\
  (forall rq, In rq (inflight st) ->
     rq_param rq = rq_uri rq /\ In (rq_uri rq) (keys (sourceFiles st))).
Proof.
  intros Hreach. change (TrackedAreRust isRustDocument st).
  induction Hreach as [w s0|ev st Hreach IH]; [|now apply step_tracked].
  unfold construct, syncAndRenderHints. simpl. split; simpl; [|intros rq []].
  apply (construct_files_tracked (documents w) ([], s0)). intros k file. discriminate.
Qed.

End Tracked.

(** The witness: a non-Rust document is opened and edited in the sample
    engine; the map still holds the two Rust files. *)
Lemma tracked_files_are_rust_documents_witness :
  let st := run Sample.isRust
              [DidOpenTextDocument (mkTextDocument "file:///notes.md" "markdown");
               Resume 0] Sample.st0 in
  keys (sourceFiles st) = ["file:///a.rs"; "file:///b.rs"] /\
  (forall k file, get k (sourceFiles st) = Some file ->
     td_uri (document file) = k /\ Sample.isRust (document file) = true).
Proof.
  intros st. split; [reflexivity|].
  apply (tracked_files_are_rust_documents Sample.isRust st).
  apply reachable_run, reachable_construct.
Defined.

(** ** The constructor *)

Section Constructor.
Variable isRustDocument : TextDocument -> bool.

Lemma construct_files_keys docs acc k :
  In k (keys (fst (fold_left (construct_file isRustDocument) docs acc))) <->
  In k (keys (fst acc)) \/
  exists doc, In doc docs /\ isRustDocument (textDocument doc) = true /\ uri doc = k.
Proof.
  revert acc. induction docs as [|doc docs IH]; intros acc; simpl.
  - split; [now left | intros [H|(doc & [] & _)]; exact H].
  - rewrite IH. unfold construct_file.
    destruct (isRustDocument (textDocument doc)) eqn:Hrust; simpl.
    + split.
      * intros [Hin|(d & Hd & Hr & Hu)].
        -- destruct (in_dec string_dec (uri doc) (keys (fst acc))) as [Hp|Ha].
           ++ rewrite keys_set_present in Hin by assumption. now left.
           ++ rewrite keys_set_absent in Hin by assumption.
              apply in_app_or in Hin as [Hin|[<-|[]]]; [now left|].
              right. exists doc. auto.
        -- right. exists d. auto.
      * intros [Hin|(d & [<-|Hd] & Hr & Hu)].
        -- left. destruct (in_dec string_dec (uri doc) (keys (fst acc))) as [Hp|Ha].
           ++ now rewrite keys_set_present.
           ++ rewrite keys_set_absent by assumption. apply in_or_app. now left.
        -- left. subst k. eapply get_in_keys. apply get_set_same.
        -- right. exists d. auto.
    + split.
      * intros [Hin|(d & Hd & Hr & Hu)]; [now left | right; exists d; auto].
      * intros [Hin|(d & [<-|Hd] & Hr & Hu)]; [now left | congruence | right; exists d; auto].
Qed.

Lemma construct_files_sink docs acc b :
  overlays (snd (fold_left (construct_file isRustDocument) docs acc)) b =
  if existsb (rustBuffer isRustDocument b) docs then [] else overlays (snd acc) b.
Proof.
  revert acc. induction docs as [|doc docs IH]; intros acc; simpl; [reflexivity|].
  rewrite IH. unfold construct_file, rustBuffer at 2.
  destruct (isRustDocument (textDocument doc)); simpl; [|reflexivity].
  destruct (Nat.eqb_spec (bufnr doc) b) as [->|Hne]; simpl.
  - rewrite overlays_clear_same. now destruct (existsb _ docs).
  - rewrite overlays_clear_other by auto. reflexivity.
Qed.

(** X7.  The constructor tracks exactly the Rust documents of
    [workspace.documents], each once and with no request recorded, clears
    the namespace of their buffers and of no other buffer, registers the
    listeners, and leaves one pass suspended with no call in flight. *)
Theorem constructor_tracks_rust_documents (w : Workspace) (s0 : Sink) :
  let st := construct isRustDocument w s0 in
  (forall k, In k (keys (sourceFiles st)) <->
     exists doc, In doc (documents w) /\
       isRustDocument (textDocument doc) = true /\ uri doc = k) /\
  NoDup (keys (sourceFiles st)) /\
  (forall k, recorded k st = None) /\
  (forall b, overlays (sink st) b =
     if existsb (rustBuffer isRustDocument b) (documents w) then [] else overlays s0 b) /\
  (forall doc, In doc (documents w) -> isRustDocument (textDocument doc) = true ->
     overlays (sink st) (bufnr doc) = []) /\
  inflight st = [] /\
  suspended st = [InSyncAndRenderHints] /\
  listening st = true /\
  inlayHintsEnabled st = true.
Proof.
  intros st.
  assert (Hsink : forall b, overlays (sink st) b =
            if existsb (rustBuffer isRustDocument b) (documents w) then [] else overlays s0 b).
  { intros b. apply (construct_files_sink (documents w) ([], s0) b). }
  split; [|split; [|split; [|split; [|split]]]].
  - intros k. unfold st, construct, syncAndRenderHints. simpl.
    rewrite construct_files_keys. simpl. split; [intros [[]|H]; exact H | now right].
  - apply (inv_keys _ (construct_inv isRustDocument w s0)).
  - apply construct_records_none.
  - exact Hsink.
  - intros doc Hin Hrust. rewrite Hsink.
    assert (E : existsb (rustBuffer isRustDocument (bufnr doc)) (documents w) = true).
    { apply existsb_exists. exists doc. split; [assumption|].
      unfold rustBuffer. now rewrite Hrust, Nat.eqb_refl. }
    now rewrite E.
  - repeat split.
Qed.

End Constructor.

(** The witness: an engine built while buffer 1 ([a.rs]) and buffer 3 (a
    text file) carry overlays of an earlier engine. *)
Lemma constructor_tracks_rust_documents_witness :
  let notes := mkDocument 3 (mkTextDocument "file:///notes.txt" "text") in
  let w := mkWorkspace [Sample.docA; notes; Sample.docB] (Some notes) false Sample.cfg in
  let old := mkVirtualText 1 [("x", "CocRustTypeHint")] in
  let st := construct Sample.isRust w [(1, old); (3, old)] in
  keys (sourceFiles st) = ["file:///a.rs"; "file:///b.rs"] /\
  overlays (sink st) 1 = [] /\
  overlays (sink st) 3 = [old].
Proof.
  intros notes w old st.
  destruct (constructor_tracks_rust_documents Sample.isRust w [(1, old); (3, old)])
    as (_ & _ & _ & Hsink & Hclear & _).
  split; [reflexivity|].
  split; [apply (Hclear Sample.docA); [now left | reflexivity]|].
  exact (Hsink 3).
Defined.

(** ** A disabled engine *)

Lemma In_remove_nth {A : Type} (x : A) i l : In x (remove_nth i l) -> In x l.
Proof.
  revert i. induction l as [|y l IH]; intros [|i]; simpl; auto.
  intros [H|H]; [now left | right; eauto].
Qed.

Lemma settle_flags isRustDocument rq outcome st :
  inlayHintsEnabled (settle isRustDocument rq outcome st) = inlayHintsEnabled st /\
  suspended (settle isRustDocument rq outcome st) = suspended st /\
  nextToken (settle isRustDocument rq outcome st) = nextToken st /\
  listening (settle isRustDocument rq outcome st) = listening st.
Proof.
  unfold settle, fetchHints_settled, finally_, clearIfCurrent.
  assert (H : forall st', inlayHintsEnabled st' = inlayHintsEnabled st ->
            suspended st' = suspended st -> nextToken st' = nextToken st ->
            listening st' = listening st ->
            let r := onHints isRustDocument rq (catch_null outcome) st' in
            inlayHintsEnabled r = inlayHintsEnabled st /\ suspended r = suspended st /\
            nextToken r = nextToken st /\ listening r = listening st).
  { intros st' H1 H2 H3 H4. destruct outcome as [hints|r]; simpl; auto.
    destruct (rq_current rq); auto. destruct (_ && _); simpl; auto. }
  destruct (recorded (rq_uri rq) st) as [t|]; [|now apply H].
  destruct (Nat.eqb t (rq_token rq)); now apply H.
Qed.

Lemma step_quiet isRustDocument ev st :
  ev <> CallToggle -> quiet st ->
  quiet (step isRustDocument ev st) /\
  nextToken (step isRustDocument ev st) = nextToken st /\
  incl (inflight (step isRustDocument ev st)) (inflight st).
Proof.
  intros Hev [Hen Hsusp].
  assert (Hsync : forall st', inlayHintsEnabled st' = false -> syncAndRenderHints st' = st').
  { intros st' H. unfold syncAndRenderHints. now rewrite H. }
  assert (Hsame : quiet st /\ nextToken st = nextToken st /\ incl (inflight st) (inflight st))
    by (repeat split; auto using incl_refl).
  destruct ev as [b|b|e| | | |i|t outcome|w]; simpl.
  - unfold onInsertLeave. destruct (getDocument _ _); auto.
    destruct (isRustDocument _); auto.
    rewrite Hsync by exact Hen. repeat split; auto using incl_refl.
  - destruct (listening st); auto.
    unfold onDidChangeTextDocument. destruct (getDocument _ _); auto.
    destruct (isRustDocument _); auto.
    destruct (_ && _); rewrite ?Hsync by exact Hen; repeat split; auto using incl_refl.
  - destruct (listening st); auto.
    unfold onDidOpenTextDocument. destruct (isRustDocument e); auto.
    destruct (getDocumentByUri _ _); rewrite ?Hsync by exact Hen;
      repeat split; auto using incl_refl.
  - congruence.
  - now rewrite Hsync.
  - repeat split; auto using incl_refl.
  - destruct (nth_error (suspended st) i) as [[|]|] eqn:E; auto.
    + exfalso. apply Hsusp. eapply nth_error_In. exact E.
    + unfold toggle_resume. simpl.
      destruct (active (ws st)); repeat split; simpl; auto using incl_refl;
        intros Hin; apply Hsusp; eapply In_remove_nth; exact Hin.
  - destruct (find_request t (inflight st)) as [rq|]; auto.
    set (st1 := with_inflight (drop_request t (inflight st)) st).
    destruct (settle_flags isRustDocument rq outcome st1) as (H1 & H2 & H3 & _).
    unfold quiet. rewrite H1, H2, H3, (proj1 (settle_records isRustDocument rq outcome st1)).
    repeat split; auto. simpl. intros x [Hx _]%filter_In. exact Hx.
  - repeat split; auto using incl_refl.
Qed.

(** X8.  While the flag is off and no pass is suspended, nothing but
    [toggle] makes the engine fetch: along any sequence of events and
    settlements without a [toggle] no token source is allocated, no call
    joins the calls in flight, and the engine stays in that condition. *)
Theorem disabled_engine_issues_no_fetch
    (isRustDocument : TextDocument -> bool) (evs : list Event) (st : State) :
  quiet st ->
  Forall (fun ev => ev <> CallToggle) evs ->
  quiet (run isRustDocument evs st) /\
  nextToken (run isRustDocument evs st) = nextToken st /\
  incl (inflight (run isRustDocument evs st)) (inflight st).
Proof.
  revert st. induction evs as [|ev evs IH]; intros st Hq Hevs; simpl.
  - split; [exact Hq|]. split; [reflexivity | apply incl_refl].
  - inversion Hevs as [|? ? Hev Hrest]; subst.
    destruct (step_quiet isRustDocument ev st Hev Hq) as (Hq1 & Hn1 & Hi1).
    destruct (IH _ Hq1 Hrest) as (Hq2 & Hn2 & Hi2).
    split; [exact Hq2|]. split; [congruence|].
    eapply incl_tran; eassumption.
Qed.

(** The witness: the sample engine toggled off with its [toggle] resumed,
    then an insert-leave, a call of [syncAndRenderHints] and a settlement. *)
Lemma disabled_engine_issues_no_fetch_witness :
  let st := run Sample.isRust [CallToggle; Resume 0] Sample.stFetching in
  let evs := [InsertLeave 1; CallSyncAndRenderHints;
              Settle 0 (Fulfilled Sample.hints); Editor Sample.wsB] in
  quiet st /\
  nextToken (run Sample.isRust evs st) = 2 /\
  incl (inflight (run Sample.isRust evs st)) (inflight st).
Proof.
  intros st evs.
  assert (Hq : quiet st) by (split; [reflexivity | intros []]).
  assert (Hevs : Forall (fun ev => ev <> CallToggle) evs)
    by (repeat constructor; discriminate).
  destruct (disabled_engine_issues_no_fetch Sample.isRust evs st Hq Hevs) as (_ & Hn & Hi).
  split; [exact Hq|]. split; [exact Hn | exact Hi].
Defined.

(** ** Token sources over time *)

Lemma passRequests_fresh current n sf rq :
  In rq (passRequests current n sf) -> n <= rq_token rq.
Proof.
  revert n. induction sf as [|[k file] sf IH]; intros n; simpl; [intros []|].
  intros [<-|Hin]; [simpl; lia|]. apply IH in Hin. lia.
Qed.

Lemma step_tokens isRustDocument ev st :
  Inv st ->
  nextToken st <= nextToken (step isRustDocument ev st) /\
  (forall rq, In rq (inflight (step isRustDocument ev st)) ->
     In rq (inflight st) \/ nextToken st <= rq_token rq).
Proof.
  intros HI.
  assert (Hsame : forall st', nextToken st' = nextToken st -> inflight st' = inflight st ->
            nextToken st <= nextToken st' /\
            (forall rq, In rq (inflight st') ->
               In rq (inflight st) \/ nextToken st <= rq_token rq)).
  { intros st' Hn Hf. rewrite Hn, Hf. split; [lia | now left]. }
  assert (Hsync : forall st', nextToken (syncAndRenderHints st') = nextToken st' /\
            inflight (syncAndRenderHints st') = inflight st').
  { intros st'. unfold syncAndRenderHints. now destruct (inlayHintsEnabled st'). }
  destruct ev as [b|b|e| | | |i|t outcome|w]; simpl.
  - unfold onInsertLeave. destruct (getDocument _ _); [|now apply Hsame].
    destruct (isRustDocument _); [|now apply Hsame].
    apply Hsame; now rewrite ?(proj1 (Hsync _)), ?(proj2 (Hsync _)).
  - destruct (listening st); [|now apply Hsame].
    unfold onDidChangeTextDocument. destruct (getDocument _ _); [|now apply Hsame].
    destruct (isRustDocument _); [|now apply Hsame].
    destruct (_ && _); apply Hsame; now rewrite ?(proj1 (Hsync _)), ?(proj2 (Hsync _)).
  - destruct (listening st); [|now apply Hsame].
    unfold onDidOpenTextDocument. destruct (isRustDocument e); [|now apply Hsame].
    destruct (getDocumentByUri _ _); apply Hsame;
      now rewrite ?(proj1 (Hsync _)), ?(proj2 (Hsync _)).
  - unfold toggle. destruct (inlayHintsEnabled st); apply Hsame;
      now rewrite ?(proj1 (Hsync _)), ?(proj2 (Hsync _)).
  - apply Hsame; now rewrite ?(proj1 (Hsync _)), ?(proj2 (Hsync _)).
  - now apply Hsame.
  - destruct (nth_error (suspended st) i) as [[|]|]; [| |now apply Hsame].
    + match goal with
      | |- context [syncAndRenderHints_resume ?c ?s] =>
          rewrite (resume_afterPass c s (inv_keys _ HI))
      end.
      simpl. split; [lia|].
      intros rq [Hin|Hin]%in_app_or; [now left | right].
      now apply passRequests_fresh in Hin.
    + unfold toggle_resume. simpl. destruct (active (ws st)); now apply Hsame.
  - destruct (find_request t (inflight st)) as [rq|]; [|now apply Hsame].
    set (st1 := with_inflight (drop_request t (inflight st)) st).
    destruct (settle_flags isRustDocument rq outcome st1) as (_ & _ & H3 & _).
    rewrite H3, (proj1 (settle_records isRustDocument rq outcome st1)). simpl.
    split; [lia|]. intros x [Hx _]%filter_In. now left.
  - now apply Hsame.
Qed.

(** X9.  A token source is allocated once: from a reachable state, a token
    source below the allocation counter that names no call in flight names
    none ever after, and the counter never goes back.  In particular a call
    that has settled does not come back. *)
Theorem token_source_is_never_reused
    (isRustDocument : TextDocument -> bool) (evs : list Event) (st : State) (t : nat) :
  reachable isRustDocument st ->
  t < nextToken st ->
  ~ In t (map rq_token (inflight st)) ->
  nextToken st <= nextToken (run isRustDocument evs st) /\
  ~ In t (map rq_token (inflight (run isRustDocument evs st))).
Proof.
  revert st. induction evs as [|ev evs IH]; intros st Hreach Ht Hout; simpl.
  - split; [lia | exact Hout].
  - destruct (step_tokens isRustDocument ev st (reachable_inv _ _ Hreach)) as [Hn Hf].
    destruct (IH (step isRustDocument ev st)) as [Hn' Hout'].
    + now constructor.
    + lia.
    + intros (rq & E & Hin)%in_map_iff. destruct (Hf rq Hin) as [Hold|Hnew]; [|lia].
      apply Hout. rewrite <- E. now apply in_map.
    + split; [lia | exact Hout'].
Qed.

(** The witness: token 0 has settled in [stHinted]; two passes later it is
    not among the calls in flight. *)
Lemma token_source_is_never_reused_witness :
  let evs := [CallSyncAndRenderHints; Resume 0; InsertLeave 1; Resume 0] in
  ~ In 0 (map rq_token (inflight Sample.stHinted)) /\
  map rq_token (inflight (run Sample.isRust evs Sample.stHinted)) = [1; 2; 3; 4; 5] /\
  ~ In 0 (map rq_token (inflight (run Sample.isRust evs Sample.stHinted))).
Proof.
  intros evs.
  assert (Hout : ~ In 0 (map rq_token (inflight Sample.stHinted)))
    by (vm_compute; intros [H|[]]; discriminate H).
  assert (Hreach : reachable Sample.isRust Sample.stHinted)
    by (do 2 apply reachable_run; apply reachable_construct).
  assert (Hlt : 0 < nextToken Sample.stHinted) by (vm_compute; lia).
  split; [exact Hout|]. split; [reflexivity|].
  exact (proj2 (token_source_is_never_reused Sample.isRust evs Sample.stHinted 0
                  Hreach Hlt Hout)).
Defined.

(** ** The registry over time *)

Lemma get_assign_kept k k' r sf file :
  get k' sf = Some file ->
  exists file', get k' (assignInlaysRequest k r sf) = Some file' /\
                document file' = document file.
Proof.
  intros Hget. unfold assignInlaysRequest.
  destruct (get k sf) as [file0|] eqn:E; [|eauto].
  destruct (string_dec k' k) as [->|Hne].
  - rewrite get_set_same. rewrite E in Hget. injection Hget as <-. eauto.
  - rewrite get_set_other by assumption. eauto.
Qed.

Lemma extends_refl sf : extends sf sf.
Proof. split; [exists []; now rewrite app_nil_r | eauto]. Qed.

Lemma extends_trans sf1 sf2 sf3 : extends sf1 sf2 -> extends sf2 sf3 -> extends sf1 sf3.
Proof.
  intros [[a1 K1] G1] [[a2 K2] G2]. split.
  - exists (a1 ++ a2). now rewrite K2, K1, app_assoc.
  - intros k file Hget. destruct (G1 _ _ Hget) as (f2 & Hget2 & D2).
    destruct (G2 _ _ Hget2) as (f3 & Hget3 & D3). exists f3. split; [assumption | congruence].
Qed.

Lemma extends_assign k r sf : extends sf (assignInlaysRequest k r sf).
Proof.
  split; [exists []; now rewrite keys_assign, app_nil_r|].
  intros k' file. apply get_assign_kept.
Qed.

Lemma extends_register e sf : extends sf (register e sf).
Proof.
  destruct (get (td_uri e) sf) as [file|] eqn:E.
  - rewrite (register_present _ _ _ E). apply extends_refl.
  - rewrite (register_absent _ _ E). split.
    + exists [td_uri e]. unfold keys. now rewrite map_app.
    + intros k file Hget. exists file. split; [|reflexivity].
      assert (Hk : ~ In (td_uri e) (keys sf)) by now apply get_none_iff.
      assert (Hne : k <> td_uri e).
      { intros ->. congruence. }
      clear -Hget Hne. induction sf as [|[k0 v0] sf IH]; simpl in *; [discriminate|].
      destruct (String.eqb k k0); [assumption | auto].
Qed.

Lemma extends_fetchHints current k st :
  extends (sourceFiles st) (sourceFiles (fetchHints current k st)).
Proof.
  unfold fetchHints. destruct (get k (sourceFiles st)); [|apply extends_refl].
  simpl. apply extends_assign.
Qed.

Lemma extends_step isRustDocument ev st :
  extends (sourceFiles st) (sourceFiles (step isRustDocument ev st)).
Proof.
  assert (Hsame : forall st', sourceFiles st' = sourceFiles st ->
            extends (sourceFiles st) (sourceFiles st')).
  { intros st' ->. apply extends_refl. }
  assert (Hsync : forall st', sourceFiles (syncAndRenderHints st') = sourceFiles st').
  { intros st'. unfold syncAndRenderHints. now destruct (inlayHintsEnabled st'). }
  destruct ev as [b|b|e| | | |i|t outcome|w]; simpl.
  - unfold onInsertLeave. destruct (getDocument _ _); [|now apply Hsame].
    destruct (isRustDocument _); apply Hsame; now rewrite ?Hsync.
  - destruct (listening st); [|now apply Hsame].
    unfold onDidChangeTextDocument. destruct (getDocument _ _); [|now apply Hsame].
    destruct (isRustDocument _); [|now apply Hsame].
    destruct (_ && _); apply Hsame; now rewrite ?Hsync.
  - destruct (listening st); [|now apply Hsame].
    unfold onDidOpenTextDocument. destruct (isRustDocument e); [|now apply Hsame].
    destruct (getDocumentByUri _ _); rewrite ?Hsync; simpl; apply extends_register.
  - unfold toggle. destruct (inlayHintsEnabled st); apply Hsame; now rewrite ?Hsync.
  - apply Hsame. now rewrite Hsync.
  - now apply Hsame.
  - destruct (nth_error (suspended st) i) as [[|]|]; [| |now apply Hsame].
    + unfold syncAndRenderHints_resume. simpl.
      change (sourceFiles st)
        with (sourceFiles (with_suspended (remove_nth i (suspended st)) st)) at 1.
      generalize (with_suspended (remove_nth i (suspended st)) st).
      generalize (keys (sourceFiles st)). intros ks.
      induction ks as [|k ks IH]; simpl; intros s; [apply extends_refl|].
      eapply extends_trans; [apply (extends_fetchHints (active (ws st)) k s) | apply IH].
    + unfold toggle_resume. simpl. destruct (active (ws st)); now apply Hsame.
  - destruct (find_request t (inflight st)) as [rq|]; [|now apply Hsame].
    set (st1 := with_inflight (drop_request t (inflight st)) st).
    rewrite (proj2 (settle_records isRustDocument rq outcome st1)).
    destruct (mayClear st1 rq); [apply extends_assign | apply extends_refl].
  - now apply Hsame.
Qed.

(** X10.  The map only grows: whatever happens, the keys it had stay in
    their place, new keys are added behind them, and the file under a key
    keeps its document.  No entry is ever removed, not for a closed
    document and not by [dispose]. *)
Theorem registry_only_grows
    (isRustDocument : TextDocument -> bool) (evs : list Event) (st : State) :
  (exists added,
     keys (sourceFiles (run isRustDocument evs st)) = keys (sourceFiles st) ++ added) /\
  (forall k file, get k (sourceFiles st) = Some file ->
     exists file', get k (sourceFiles (run isRustDocument evs st)) = Some file' /\
                   document file' = document file).
Proof.
  change (extends (sourceFiles st) (sourceFiles (run isRustDocument evs st))).
  revert st. induction evs as [|ev evs IH]; intros st; simpl; [apply extends_refl|].
  eapply extends_trans; [apply (extends_step isRustDocument ev st) | apply IH].
Qed.

(** The witness: [b.rs] leaves the workspace, the engine is disposed, a
    third file is opened in between. *)
Lemma registry_only_grows_witness :
  let docC := mkTextDocument "file:///c.rs" "rust" in
  let wsClosed := mkWorkspace [Sample.docA] (Some Sample.docA) false Sample.cfg in
  let evs := [DidOpenTextDocument docC; Editor wsClosed; Settle 1 (Rejected RequestCancelled);
              CallDispose] in
  keys (sourceFiles (run Sample.isRust evs Sample.stFetching))
    = ["file:///a.rs"; "file:///b.rs"; "file:///c.rs"] /\
  exists file',
    get "file:///b.rs" (sourceFiles (run Sample.isRust evs Sample.stFetching)) = Some file' /\
    document file' = textDocument Sample.docB.
Proof.
  intros docC wsClosed evs. split; [reflexivity|].
  apply (proj2 (registry_only_grows Sample.isRust evs Sample.stFetching)
           "file:///b.rs" (mkRustSourceFile (Some 1) (textDocument Sample.docB))).
  reflexivity.
Defined.

(** ** [dispose] *)

(** X11.  [dispose] cancels the token sources recorded in the map and no
    other, and leaves the records, the calls in flight, the flag and the
    sink as they are; a second [dispose] cancels nothing more. *)
Theorem dispose_cancels_recorded_only (st : State) :
  NoDup (keys (sourceFiles st)) ->
  (forall t, In t (cancelled (dispose st)) <->
     In t (cancelled st) \/ exists k, recorded k st = Some t) /\
  (forall t, In t (cancelled (dispose (dispose st))) <-> In t (cancelled (dispose st))) /\
  sourceFiles (dispose st) = sourceFiles st /\
  inflight (dispose st) = inflight st /\
  inlayHintsEnabled (dispose st) = inlayHintsEnabled st /\
  sink (dispose st) = sink st /\
  listening (dispose st) = false.
Proof.
  intros Hnd.
  assert (H : forall s, sourceFiles s = sourceFiles st ->
            forall t, In t (cancelled (dispose s)) <->
              In t (cancelled s) \/ exists k, recorded k st = Some t).
  { intros s Hs t. simpl. rewrite Hs. split.
    - intros [Hc|(k & file & Hin & Hreq)]%cancel_all_inv; [now left | right].
      exists k. unfold recorded, recordedIn. now rewrite (in_get _ _ _ Hnd Hin).
    - intros [Hc|[k Hrec]]; [now apply cancel_all_incl|].
      unfold recorded, recordedIn in Hrec.
      destruct (get k (sourceFiles st)) as [file|] eqn:E; [|discriminate].
      eapply cancel_all_own; [apply get_in; exact E | exact Hrec]. }
  split; [apply H; reflexivity|].
  split; [|repeat split].
  intros t. rewrite (H (dispose st) eq_refl t), (H st eq_refl t). tauto.
Qed.

(** The witness: the sample engine with tokens 0 and 1 recorded. *)
Lemma dispose_cancels_recorded_only_witness :
  NoDup (keys (sourceFiles Sample.stFetching)) /\
  (forall t, In t (cancelled (dispose Sample.stFetching)) <->
     In t (cancelled Sample.stFetching) \/ exists k, recorded k Sample.stFetching = Some t) /\
  cancelled (dispose Sample.stFetching) = [1; 0].
Proof.
  assert (Hnd : NoDup (keys (sourceFiles Sample.stFetching))).
  { vm_compute. constructor; [intros [H|[]]; discriminate H|].
    constructor; [intros []|constructor]. }
  split; [exact Hnd|].
  split; [exact (proj1 (dispose_cancels_recorded_only Sample.stFetching Hnd)) | reflexivity].
Defined.

(** X12.  The listener of insert-leave is not among [disposables]: after
    [dispose] an insert-leave on a Rust document still clears the namespace
    of its buffer and, the flag being left on by [dispose], still starts a
    pass, while changes and openings of documents reach no listener. *)
Theorem insert_leave_survives_dispose
    (isRustDocument : TextDocument -> bool) (st : State) (b : nat) (doc : Document) :
  getDocument (ws st) b = Some doc ->
  isRustDocument (textDocument doc) = true ->
  step isRustDocument (InsertLeave b) (dispose st)
    = syncAndRenderHints (with_sink (clearNamespace b (sink st)) (dispose st)) /\
  overlays (sink (step isRustDocument (InsertLeave b) (dispose st))) b = [] /\
  (inlayHintsEnabled st = true ->
   suspended (step isRustDocument (InsertLeave b) (dispose st))
     = suspended st ++ [InSyncAndRenderHints]) /\
  step isRustDocument (DidChangeTextDocument b) (dispose st) = dispose st /\
  (forall e, step isRustDocument (DidOpenTextDocument e) (dispose st) = dispose st).
Proof.
  intros Hdoc Hrust.
  assert (E : step isRustDocument (InsertLeave b) (dispose st)
              = syncAndRenderHints (with_sink (clearNamespace b (sink st)) (dispose st))).
  { simpl. unfold onInsertLeave. simpl. rewrite Hdoc, Hrust.
    now rewrite (getDocument_bufnr _ _ _ Hdoc). }
  split; [exact E|]. rewrite E, sink_syncAndRenderHints. simpl.
  split; [apply overlays_clear_same|].
  split; [|split; reflexivity].
  intros Hen. unfold syncAndRenderHints. simpl. now rewrite Hen.
Qed.

(** The witness: the sample engine with hints on buffer 1 is disposed. *)
Lemma insert_leave_survives_dispose_witness :
  let st := step Sample.isRust (InsertLeave 1) (dispose Sample.stHinted) in
  overlays (sink (dispose Sample.stHinted)) 1 <> [] /\
  overlays (sink st) 1 = [] /\
  suspended st = [InSyncAndRenderHints] /\
  map rq_token (inflight (step Sample.isRust (Resume 0) st)) = [1; 2; 3].
Proof.
  intros st.
  destruct (insert_leave_survives_dispose Sample.isRust Sample.stHinted 1 Sample.docA
              eq_refl eq_refl) as (_ & Hclear & Hsusp & _).
  split; [vm_compute; discriminate|].
  split; [exact Hclear|]. split; [exact (Hsusp eq_refl) | reflexivity].
Defined.

(** ** More on [renderHints] *)

Lemma clearNamespace_app b s1 s2 :
  clearNamespace b (s1 ++ s2) = clearNamespace b s1 ++ clearNamespace b s2.
Proof. unfold clearNamespace. apply filter_app. Qed.

Lemma clearNamespace_twice b s : clearNamespace b (clearNamespace b s) = clearNamespace b s.
Proof.
  unfold clearNamespace. induction s as [|e s IH]; simpl; [reflexivity|].
  destruct (negb (Nat.eqb (fst e) b)) eqn:E; simpl; [rewrite E|]; now rewrite ?IH.
Qed.

Lemma clearNamespace_own b (l : list VirtualText) : clearNamespace b (map (pair b) l) = [].
Proof.
  unfold clearNamespace. induction l as [|v l IH]; simpl; [reflexivity|].
  now rewrite Nat.eqb_refl.
Qed.

Lemma overlays_off_buffer b b' (l : list VirtualText) :
  b' <> b -> overlays (map (pair b) l) b' = [].
Proof.
  intros Hne. unfold overlays. induction l as [|v l IH]; simpl; [reflexivity|].
  destruct (Nat.eqb_spec b b'); [congruence | exact IH].
Qed.

(** X13.  A render replaces whatever an earlier render drew on the same
    document: rendering twice leaves the sink the second render alone would
    leave.  A render changes the overlays of no other buffer, and the
    overlays it leaves on its own buffer do not depend on what was there. *)
Theorem last_render_wins :
  (forall cfg1 cfg2 doc hints1 hints2 s,
     renderHints cfg2 doc hints2 (renderHints cfg1 doc hints1 s)
       = renderHints cfg2 doc hints2 s) /\
  (forall cfg doc hints s b,
     b <> bufnr doc -> overlays (renderHints cfg doc hints s) b = overlays s b) /\
  (forall cfg doc hints s s',
     overlays (renderHints cfg doc hints s) (bufnr doc)
       = overlays (renderHints cfg doc hints s') (bufnr doc)).
Proof.
  split; [|split].
  - intros. rewrite !renderHints_sink, clearNamespace_app, clearNamespace_twice,
      clearNamespace_own, app_nil_r. reflexivity.
  - intros cfg doc hints s b Hne.
    rewrite renderHints_sink, overlays_app, overlays_clear_other, overlays_off_buffer,
      app_nil_r; auto.
  - intros. rewrite !renderHints_sink, !overlays_app, !overlays_clear_same. reflexivity.
Qed.

(** The witness: hints drawn on buffer 1 leave an overlay of buffer 2. *)
Lemma last_render_wins_witness :
  let s := [(2, mkVirtualText 4 [("x", "CocRustTypeHint")])] in
  overlays (renderHints Sample.cfg Sample.docA Sample.hints s) 2 = overlays s 2.
Proof.
  intros s. apply (proj1 (proj2 last_render_wins)). discriminate.
Defined.

Lemma filter_parameter_hints hints :
  Forall (fun h => kind h = ParameterHint) hints ->
  filter isChaining hints = [] /\ filter isType hints = [].
Proof.
  induction 1 as [|h hints Hh _ [IH1 IH2]]; simpl; [auto|].
  unfold isChaining, isType. now rewrite Hh.
Qed.

(** X14.  A render that has nothing to draw still clears the document: a
    hint list that is empty or holds parameter hints only, or a
    configuration with both kinds off, leaves the namespace of the buffer
    cleared and the rest of the sink as it was.  So a fetch fulfilled with
    the empty array for the document its pass read removes the overlays,
    unlike a fetch that fails. *)
Theorem render_of_nothing_clears (isRustDocument : TextDocument -> bool) :
  (forall cfg doc hints s,
     Forall (fun h => kind h = ParameterHint) hints \/
     (chainingHints cfg = false /\ typeHints cfg = false) ->
     renderHints cfg doc hints s = clearNamespace (bufnr doc) s) /\
  (forall st t rq current,
     find_request t (inflight st) = Some rq ->
     rq_current rq = Some current ->
     uri current = rq_uri rq ->
     isRustDocument (textDocument current) = true ->
     sink (step isRustDocument (Settle t (Fulfilled [])) st)
       = clearNamespace (bufnr current) (sink st)).
Proof.
  assert (H : forall cfg doc hints s,
            Forall (fun h => kind h = ParameterHint) hints \/
            (chainingHints cfg = false /\ typeHints cfg = false) ->
            renderHints cfg doc hints s = clearNamespace (bufnr doc) s).
  { intros cfg doc hints s Hcase. rewrite renderHints_sink. unfold expectedOverlays.
    destruct Hcase as [Hp|[Hc Ht]].
    - destruct (filter_parameter_hints hints Hp) as [-> ->].
      destruct (chainingHints cfg), (typeHints cfg); simpl; now rewrite app_nil_r.
    - rewrite Hc, Ht. simpl. now rewrite app_nil_r. }
  split; [exact H|].
  intros st t rq current Hfind Hcur Huri Hrust. simpl. rewrite Hfind, sink_settle.
  rewrite Hcur, Huri, String.eqb_refl, Hrust. simpl.
  apply (H _ current []). left. constructor.
Qed.

(** The witness: token 2 of [stRefetching], fulfilled with no hints. *)
Lemma render_of_nothing_clears_witness :
  overlays (sink Sample.stRefetching) 1 <> [] /\
  sink (step Sample.isRust (Settle 2 (Fulfilled [])) Sample.stRefetching)
    = clearNamespace 1 (sink Sample.stRefetching) /\
  renderHints Sample.cfg Sample.docA
    [mkInlayHint ParameterHint "x" (mkRange (mkPosition 1 0) (mkPosition 1 1))]
    (sink Sample.stRefetching) = [].
Proof.
  destruct (render_of_nothing_clears Sample.isRust) as [Hrender Hsettle].
  split; [vm_compute; discriminate|]. split.
  - apply (Hsettle Sample.stRefetching 2
             (mkRequest 2 "file:///a.rs" "file:///a.rs" (Some Sample.docA)) Sample.docA);
      reflexivity.
  - rewrite Hrender; [reflexivity|]. left. repeat constructor.
Defined.

(** ** Opening a document *)

(** X15.  The listener of document-opened, run for a Rust document that is
    not tracked, adds it behind the other files with no request recorded;
    no call is issued in that step.  When the workspace knows a document
    for the uri, the namespace of its buffer is cleared and, the flag being
    on, a pass is suspended.  When it knows none, [doc.buffer] throws and
    the listener ends with the file registered, nothing cleared and no pass
    started. *)
Theorem open_untracked_document
    (isRustDocument : TextDocument -> bool) (st : State) (e : TextDocument) :
  listening st = true ->
  isRustDocument e = true ->
  get (td_uri e) (sourceFiles st) = None ->
  let st' := step isRustDocument (DidOpenTextDocument e) st in
  sourceFiles st' = sourceFiles st ++ [(td_uri e, mkRustSourceFile None e)] /\
  recorded (td_uri e) st' = None /\
  inflight st' = inflight st /\
  nextToken st' = nextToken st /\
  (forall doc, getDocumentByUri (ws st) (td_uri e) = Some doc ->
     sink st' = clearNamespace (bufnr doc) (sink st) /\
     suspended st' =
       if inlayHintsEnabled st then suspended st ++ [InSyncAndRenderHints]
       else suspended st) /\
  (getDocumentByUri (ws st) (td_uri e) = None ->
     sink st' = sink st /\ suspended st' = suspended st).
Proof.
  intros Hl Hrust Hget st'. unfold st'. simpl. rewrite Hl.
  unfold onDidOpenTextDocument. rewrite Hrust. simpl.
  assert (Hrec : recordedIn (td_uri e) (register e (sourceFiles st)) = None).
  { rewrite recordedIn_register. unfold recordedIn. now rewrite Hget. }
  pose proof (register_absent _ _ Hget) as Hreg.
  destruct (getDocumentByUri (ws st) (td_uri e)) as [doc|].
  - unfold syncAndRenderHints. simpl.
    destruct (inlayHintsEnabled st); unfold recorded; simpl;
      (split; [exact Hreg|]); (split; [exact Hrec|]);
      (split; [reflexivity|]); (split; [reflexivity|]);
      (split; [intros doc' [= <-]; split; reflexivity | intros H; discriminate H]).
  - unfold recorded. simpl.
    split; [exact Hreg|]. split; [exact Hrec|].
    split; [reflexivity|]. split; [reflexivity|].
    split; [intros doc' H; discriminate H | intros _; split; reflexivity].
Qed.

(** The witness: [c.rs] is opened in the sample engine before the
    workspace lists it. *)
Lemma open_untracked_document_witness :
  let docC := mkTextDocument "file:///c.rs" "rust" in
  let st' := step Sample.isRust (DidOpenTextDocument docC) Sample.stHinted in
  keys (sourceFiles st') = ["file:///a.rs"; "file:///b.rs"; "file:///c.rs"] /\
  sink st' = sink Sample.stHinted /\
  suspended st' = [].
Proof.
  intros docC st'.
  destruct (open_untracked_document Sample.isRust Sample.stHinted docC
              eq_refl eq_refl eq_refl) as (_ & _ & _ & _ & _ & Hnone).
  split; [reflexivity|]. exact (Hnone eq_refl).
Defined.
